(** * SmartInput: the key-event state machine of [main.py]

    A shallow embedding of [AI_Test/SmartInput/main.py]: the mode classifier
    [is_pinyin_sequence_prefix], the candidate lookup [simple_seg] /
    [get_top_candidates], and the two keyboard callbacks [on_press] and
    [on_release] with the six module-level variables they mutate.

    Python values are modelled as follows.
    - A [str] is the list of its Unicode code points ([N]).
    - [str.isalpha], [str.isdigit] and [str.lower] are written out for ASCII;
      beyond ASCII they read CPython's Unicode database, which is not part of
      the repository and is taken as the interface [UnicodeData].
    - [Pinyin2Hanzi] ([DefaultDagParams], [dag]) is an external library and is
      taken as the interface [Pinyin2Hanzi]; a call of [dag] may raise.
    - A key is a member of pynput's [keyboard.Key] or a [keyboard.KeyCode]
      whose [char] is one character or [None].
    - The module-level variables form the record [State]; everything a
      callback does to the outside ([print], [ui_queue.put], the two tray
      updates, [stop_event.set]) is recorded, in order, as a list of
      [Effect]s.  The tray updates are taken to return normally.

    The file has three parts: the model (up to [reachable]), the vocabulary
    the statements use, and the lemmas and theorems.  The theorems hold for
    every instance of the two interfaces; the last section runs the model on
    one concrete instance of each. *)

From Stdlib Require Import List NArith ZArith Bool Lia Ascii.
From Stdlib Require String.
From Equations Require Import Equations.
Import ListNotations String.StringSyntax.
Delimit Scope string_scope with string.

(* ===================================================================== *)
(** * Python strings and slices *)
(* ===================================================================== *)

(** A character is a Unicode code point, a [str] a sequence of them. *)
Definition char := N.
Definition str := list char.

(** The code points of an ASCII literal. *)
Definition str_of (s : String.string) : str :=
  map N_of_ascii (String.list_ascii_of_string s).
Arguments str_of s%_string.

(** U+00FC, the one non-ASCII character of the source's literals. *)
Definition u_umlaut : char := 252%N.

Fixpoint str_eqb (a b : str) : bool :=
  match a, b with
  | [], [] => true
  | x :: a', y :: b' => N.eqb x y && str_eqb a' b'
  | _, _ => false
  end.

(** [x in s] for a set [s] of strings. *)
Definition str_in (x : str) (s : list str) : bool := existsb (str_eqb x) s.

(** [set(literal)]: the set of the one-character strings of [literal]. *)
Definition set_of_chars (literal : str) : list str := map (fun c => [c]) literal.

(** Truthiness of a sequence: [if text:]. *)
Definition truthy {A : Type} (l : list A) : bool :=
  match l with [] => false | _ :: _ => true end.

(** [l[:k]] for any integer [k]; a negative [k] counts from the end. *)
Definition slice_to {A : Type} (l : list A) (k : Z) : list A :=
  if (k <? 0)%Z
  then firstn (Z.to_nat (Z.max 0 (Z.of_nat (length l) + k))) l
  else firstn (Z.to_nat k) l.

(** [l[lo:hi]] for [0 <= lo <= hi]. *)
Definition slice {A : Type} (l : list A) (lo hi : nat) : list A :=
  firstn (hi - lo) (skipn lo l).

(** [''.join(parts)]. *)
Definition join (parts : list str) : str := concat parts.

(* ===================================================================== *)
(** * Character classes *)
(* ===================================================================== *)

(** CPython's Unicode database for the code points from 128 on: whether a
    character is alphabetic, whether it is a digit, and its lower-case
    mapping (which may be several characters long). *)
Class UnicodeData : Type := {
  uc_isalpha : char -> bool;
  uc_isdigit : char -> bool;
  uc_lower : char -> str
}.

Definition is_ascii (c : char) : bool := (c <? 128)%N.
Definition is_ascii_upper (c : char) : bool := ((65 <=? c) && (c <=? 90))%N.
Definition is_ascii_lower (c : char) : bool := ((97 <=? c) && (c <=? 122))%N.
Definition is_ascii_digit (c : char) : bool := ((48 <=? c) && (c <=? 57))%N.

(** The letters [A-Z] and [a-z]: what the source calls a letter key. *)
Definition is_latin_letter (c : char) : bool := is_ascii_upper c || is_ascii_lower c.

(** Lower-casing of an ASCII letter. *)
Definition ascii_lower (c : char) : char :=
  if is_ascii_upper c then (c + 32)%N else c.

Section Characters.
Context {U : UnicodeData}.

(** [c.isalpha()] for a one-character string [c]. *)
Definition isalpha (c : char) : bool :=
  if is_ascii c then is_latin_letter c else uc_isalpha c.

(** [c.isdigit()] for a one-character string [c]. *)
Definition isdigit (c : char) : bool :=
  if is_ascii c then is_ascii_digit c else uc_isdigit c.

(** [c.lower()] for a one-character string [c]. *)
Definition lower_char (c : char) : str :=
  if is_ascii c then [ascii_lower c] else uc_lower c.

(** [text.lower()], character by character.  CPython's only context rule
    (a final capital sigma becomes U+03C2 instead of U+03C3) exchanges two
    alphabetic letters that are in neither set below, so it cannot change
    what [is_pinyin_sequence_prefix] returns. *)
Definition lower (text : str) : str := flat_map lower_char text.

(* ===================================================================== *)
(** * The mode classifier *)
(* ===================================================================== *)

Definition valid_initials : list str := set_of_chars (str_of "bpmfdztnlgkhjqxzcs").
Definition valid_finals : list str := set_of_chars (str_of "aeiou" ++ [u_umlaut] ++ str_of "v").

(** [is_pinyin_sequence_prefix(text)], lines 164-190. *)
Definition is_pinyin_sequence_prefix (text : str) : bool :=
  match text with
  | [] => false                                         (* if not text *)
  | text_0 :: _ =>
      if negb (forallb isalpha (lower text)) then false
      else
        let first_char := lower_char text_0 in
        if negb (str_in first_char valid_initials) && negb (str_in first_char valid_finals)
        then false
        else true
  end.

End Characters.

(* ===================================================================== *)
(** * Exceptions, modes, messages and effects *)
(* ===================================================================== *)

(** A raised exception: whether its class derives from [Exception] (what
    [except Exception] catches; [KeyboardInterrupt] and [SystemExit] do
    not), and its text. *)
Record PyExc : Type := { is_Exception : bool; exc_text : str }.

Inductive result (A : Type) : Type :=
| Ok (a : A)
| Raise (e : PyExc).
Arguments Ok {A} a.
Arguments Raise {A} e.

(** The values [current_mode] takes: "pinyin", "english", "unknown". *)
Inductive Mode : Type := pinyin | english | unknown.

Definition mode_eqb (a b : Mode) : bool :=
  match a, b with
  | pinyin, pinyin | english, english | unknown, unknown => true
  | _, _ => false
  end.

(** [@dataclass class UIState]. *)
Record UIState : Type := { visible : bool; buffer : str; candidates : list str }.

(** The lines the program prints, by the line of [main.py] that prints them. *)
Inductive Message : Type :=
| msg_lookup_error (e : PyExc)                                    (* 144 *)
| msg_switch_english                                              (* 249 *)
| msg_switch_pinyin                                               (* 252, 255 *)
| msg_backspace (buf : str) (mode : Mode)                         (* 296 *)
| msg_esc_pressed                                                 (* 301 *)
| msg_input (buf : str) (mode : Mode) (cands : list str)          (* 331 *)
| msg_commit (output : str)                                       (* 343, 347 *)
| msg_select (output : str)                                       (* 363 *)
| msg_esc_released.                                               (* 395 *)

(** What a callback does to the world outside the six state variables. *)
Inductive Effect : Type :=
| print (m : Message)
| ui_queue_put (u : UIState)
| update_tray_menu (mode : Mode)
| update_tray_icon_image (mode : Mode)
| stop_event_set.

(* ===================================================================== *)
(** * The candidate lookup *)
(* ===================================================================== *)

(** The part of the Pinyin2Hanzi library that [main.py] uses: the class of
    parameter objects with the instance [DefaultDagParams()], the truth value
    of such an object, the items [dag] returns with their [path] attribute,
    and [dag(params, pinyin_list, path_num)] itself, which may raise. *)
Class Pinyin2Hanzi : Type := {
  DagParams : Type;
  Item : Type;
  path : Item -> list str;
  params_truthy : DagParams -> bool;
  DefaultDagParams : DagParams;
  dag : DagParams -> list str -> Z -> result (list Item)
}.

(** The [while] loop of [simple_seg], lines 126-134, from index [i] on with
    [pinyin_list] as built so far. *)
Equations? pinyin_list_loop (pinyin_str : str) (i : nat) (pinyin_list : list str)
  : list str by wf (length pinyin_str - i) lt :=
  pinyin_list_loop pinyin_str i pinyin_list with lt_dec i (length pinyin_str) := {
    | left _ with le_dec (i + 2) (length pinyin_str) := {
        | left _ :=
            pinyin_list_loop pinyin_str (i + 2)
              (pinyin_list ++ [slice pinyin_str i (i + 2)]);
        | right _ :=
            pinyin_list_loop pinyin_str (i + 1)
              (pinyin_list ++ [match nth_error pinyin_str i with
                               | Some c => [c]
                               | None => []      (* not reached: i < len *)
                               end]) };
    | right _ := pinyin_list }.
Proof. all: lia. Qed.

Section Lookup.
Context {P : Pinyin2Hanzi}.

(** [dag_params = DefaultDagParams()], line 105. *)
Definition dag_params : DagParams := DefaultDagParams.

(** [dagparams if dagparams else dag_params], line 137; the argument
    defaults to [None]. *)
Definition params_or_default (dagparams : option DagParams) : DagParams :=
  match dagparams with
  | Some p => if params_truthy p then p else dag_params
  | None => dag_params
  end.

(** [simple_seg(pinyin_str, top_k, dagparams)], lines 107-145: the value
    returned or the exception that leaves the function, and what it printed. *)
Definition simple_seg (pinyin_str : str) (top_k : Z) (dagparams : option DagParams)
  : result (list str) * list Effect :=
  if negb (truthy pinyin_str) then (Ok [], [])
  else
    (* try: *)
    let pinyin_list := pinyin_list_loop pinyin_str 0 [] in
    let params := params_or_default dagparams in
    match dag params pinyin_list top_k with
    | Ok result =>
        let candidates := map (fun item => join (path item)) result in
        (Ok (slice_to candidates top_k), [])
    | Raise e =>
        (* except Exception as e: *)
        if is_Exception e then (Ok [], [print (msg_lookup_error e)])
        else (Raise e, [])
    end.

(** [get_top_candidates(pinyin, top_k)], lines 192-208; the bare [except:]
    catches whatever [simple_seg] lets through. *)
Definition get_top_candidates (pinyin_ : str) (top_k : Z) : list str * list Effect :=
  match simple_seg pinyin_ top_k (Some dag_params) with
  | (Ok candidates, out) => (candidates, out)
  | (Raise _, out) => ([], out)
  end.

End Lookup.

(* ===================================================================== *)
(** * Keys, state and the callback monad *)
(* ===================================================================== *)

(** A key as pynput delivers it: a member of the enumeration [keyboard.Key]
    (the ten the callbacks compare against, and any other), or a
    [keyboard.KeyCode], whose [char] is one character or [None]. *)
Inductive Key : Type :=
| Key_ctrl | Key_ctrl_l | Key_ctrl_r
| Key_shift | Key_shift_l | Key_shift_r
| Key_backspace | Key_esc | Key_space | Key_enter
| Key_other (name : nat)
| KeyCode (char_ : option char).

Definition key_eqb (a b : Key) : bool :=
  match a, b with
  | Key_ctrl, Key_ctrl | Key_ctrl_l, Key_ctrl_l | Key_ctrl_r, Key_ctrl_r
  | Key_shift, Key_shift | Key_shift_l, Key_shift_l | Key_shift_r, Key_shift_r
  | Key_backspace, Key_backspace | Key_esc, Key_esc
  | Key_space, Key_space | Key_enter, Key_enter => true
  | Key_other n, Key_other m => Nat.eqb n m
  | KeyCode None, KeyCode None => true
  | KeyCode (Some c), KeyCode (Some d) => N.eqb c d
  | _, _ => false
  end.

(** [key in (k1, k2, ...)]. *)
Definition key_in (key : Key) (keys : list Key) : bool := existsb (key_eqb key) keys.

(** [try: ch = key.char / except AttributeError: ch = None], lines 228-231:
    the members of [keyboard.Key] have no attribute [char]. *)
Definition key_char (key : Key) : option char :=
  match key with
  | KeyCode ch => ch
  | _ => None
  end.

(** The module-level variables the callbacks declare [global], lines 91-98. *)
Record State : Type := {
  current_mode : Mode;
  input_buffer : str;
  raw_input_buffer : str;
  current_candidates : list str;
  ctrl_pressed : bool;
  shift_pressed : bool
}.

(** Their values when the module is loaded. *)
Definition initial_state : State :=
  {| current_mode := unknown; input_buffer := []; raw_input_buffer := [];
     current_candidates := []; ctrl_pressed := false; shift_pressed := false |}.

Definition set_current_mode (v : Mode) (st : State) : State :=
  {| current_mode := v; input_buffer := input_buffer st;
     raw_input_buffer := raw_input_buffer st;
     current_candidates := current_candidates st;
     ctrl_pressed := ctrl_pressed st; shift_pressed := shift_pressed st |}.

Definition set_input_buffer (v : str) (st : State) : State :=
  {| current_mode := current_mode st; input_buffer := v;
     raw_input_buffer := raw_input_buffer st;
     current_candidates := current_candidates st;
     ctrl_pressed := ctrl_pressed st; shift_pressed := shift_pressed st |}.

Definition set_raw_input_buffer (v : str) (st : State) : State :=
  {| current_mode := current_mode st; input_buffer := input_buffer st;
     raw_input_buffer := v;
     current_candidates := current_candidates st;
     ctrl_pressed := ctrl_pressed st; shift_pressed := shift_pressed st |}.

Definition set_current_candidates (v : list str) (st : State) : State :=
  {| current_mode := current_mode st; input_buffer := input_buffer st;
     raw_input_buffer := raw_input_buffer st;
     current_candidates := v;
     ctrl_pressed := ctrl_pressed st; shift_pressed := shift_pressed st |}.

Definition set_ctrl_pressed (v : bool) (st : State) : State :=
  {| current_mode := current_mode st; input_buffer := input_buffer st;
     raw_input_buffer := raw_input_buffer st;
     current_candidates := current_candidates st;
     ctrl_pressed := v; shift_pressed := shift_pressed st |}.

Definition set_shift_pressed (v : bool) (st : State) : State :=
  {| current_mode := current_mode st; input_buffer := input_buffer st;
     raw_input_buffer := raw_input_buffer st;
     current_candidates := current_candidates st;
     ctrl_pressed := ctrl_pressed st; shift_pressed := v |}.

(** A piece of a callback: from the state before, its value, the state
    after, and the effects in the order they happen. *)
Definition Cmd (A : Type) : Type := State -> A * State * list Effect.

(** The three components of an outcome. *)
Definition value_of {A : Type} (x : A * State * list Effect) : A := fst (fst x).
Definition state_of {A : Type} (x : A * State * list Effect) : State := snd (fst x).
Definition effects_of {A : Type} (x : A * State * list Effect) : list Effect := snd x.

Definition ret {A : Type} (a : A) : Cmd A := fun st => (a, st, []).

Definition bind {A B : Type} (m : Cmd A) (f : A -> Cmd B) : Cmd B :=
  fun st =>
    let '(a, st1, out1) := m st in
    let '(b, st2, out2) := f a st1 in
    (b, st2, out1 ++ out2).

(** Read a global. *)
Definition read {A : Type} (f : State -> A) : Cmd A := fun st => (f st, st, []).

(** Assign a global. *)
Definition assign (f : State -> State) : Cmd unit := fun st => (tt, f st, []).

(** Do something to the outside world. *)
Definition emit (e : Effect) : Cmd unit := fun st => (tt, st, [e]).

(** Call a function that touches no global. *)
Definition call {A : Type} (r : A * list Effect) : Cmd A := fun st => (fst r, st, snd r).

Declare Scope cmd_scope.
Delimit Scope cmd_scope with cmd.
Notation "x <- m ;; k" := (bind m (fun x => k))
  (at level 61, m at next level, right associativity) : cmd_scope.
Notation "m ;; k" := (bind m (fun _ => k))
  (at level 61, right associativity) : cmd_scope.

(** What a callback returns: [None] (also by running off its end), or
    [False], which makes pynput stop the listener. *)
Inductive PyRet : Type := RetNone | RetFalse.

(** A block of a callback either returns ([Some]) or lets control pass to
    the code below it ([None]). *)
Definition Block : Type := Cmd (option PyRet).

Definition returned (r : PyRet) : Block := ret (Some r).
Definition fall_through : Block := ret None.

Definition or_else (m k : Block) : Block :=
  fun st =>
    match m st with
    | (Some r, st1, out1) => (Some r, st1, out1)
    | (None, st1, out1) => let '(r, st2, out2) := k st1 in (r, st2, out1 ++ out2)
    end.

(* ===================================================================== *)
(** * The callbacks *)
(* ===================================================================== *)

Section Callbacks.
Context {U : UnicodeData} {P : Pinyin2Hanzi}.
Local Open Scope cmd_scope.

Definition ctrl_keys : list Key := [Key_ctrl; Key_ctrl_l; Key_ctrl_r].
Definition shift_keys : list Key := [Key_shift; Key_shift_l; Key_shift_r].

(** The mode a non-empty buffer is given, lines 277-280 and 311-316. *)
Definition mode_of_buffer (buf : str) : Mode :=
  if is_pinyin_sequence_prefix buf then pinyin else english.

(** Lines 284-287 and 319-321: tell the tray when the mode changed. *)
Definition notify_tray (prev_mode : Mode) : Cmd unit :=
  mode <- read current_mode ;;
  if negb (mode_eqb mode prev_mode) && (mode_eqb mode pinyin || mode_eqb mode english)
  then emit (update_tray_menu mode) ;; emit (update_tray_icon_image mode)
  else ret tt.

(** Lines 289-294 and 324-329: recompute the candidates and tell the UI. *)
Definition refresh_candidates : Cmd unit :=
  mode <- read current_mode ;;
  buf <- read input_buffer ;;
  if mode_eqb mode pinyin then
    cands <- call (get_top_candidates buf 5) ;;
    assign (set_current_candidates cands) ;;
    emit (ui_queue_put {| visible := true; buffer := buf; candidates := cands |})
  else
    assign (set_current_candidates []) ;;
    emit (ui_queue_put {| visible := false; buffer := buf; candidates := [] |}).

(** Lines 350-354 and 366-370: back to the rest state, UI hidden. *)
Definition clear_buffers : Cmd unit :=
  assign (set_input_buffer []) ;;
  assign (set_raw_input_buffer []) ;;
  assign (set_current_candidates []) ;;
  assign (set_current_mode unknown) ;;
  emit (ui_queue_put {| visible := false; buffer := []; candidates := [] |}).

(** Lines 234-236. *)
Definition press_ctrl (key : Key) : Block :=
  if key_in key ctrl_keys then
    assign (set_ctrl_pressed true) ;;
    returned RetNone
  else fall_through.

(** Case 0, lines 239-266: Shift, and Ctrl+Shift. *)
Definition press_shift (key : Key) : Block :=
  if key_eqb key Key_shift || key_eqb key Key_shift_l || key_eqb key Key_shift_r then
    assign (set_shift_pressed true) ;;
    ctrl <- read ctrl_pressed ;;
    if negb ctrl then returned RetNone
    else
      mode <- read current_mode ;;
      match mode with
      | pinyin => assign (set_current_mode english) ;; emit (print msg_switch_english)
      | english => assign (set_current_mode pinyin) ;; emit (print msg_switch_pinyin)
      | unknown => assign (set_current_mode pinyin) ;; emit (print msg_switch_pinyin)
      end ;;
      assign (set_input_buffer []) ;;
      assign (set_raw_input_buffer []) ;;
      assign (set_current_candidates []) ;;
      mode <- read current_mode ;;
      emit (ui_queue_put {| visible := mode_eqb mode pinyin; buffer := [];
                            candidates := [] |}) ;;
      emit (update_tray_menu mode) ;;
      emit (update_tray_icon_image mode) ;;
      returned RetNone
  else fall_through.

(** Case 1, lines 269-297: Backspace. *)
Definition press_backspace (key : Key) : Block :=
  if key_eqb key Key_backspace then
    mode <- read current_mode ;;
    buf <- read input_buffer ;;
    if mode_eqb mode pinyin && truthy buf then
      assign (fun st => set_input_buffer (slice_to (input_buffer st) (-1)) st) ;;
      assign (fun st => set_raw_input_buffer (slice_to (raw_input_buffer st) (-1)) st) ;;
      prev_mode <- read current_mode ;;
      buf <- read input_buffer ;;
      (if truthy buf then
         if is_pinyin_sequence_prefix buf
         then assign (set_current_mode pinyin)
         else assign (set_current_mode english)
       else assign (set_current_mode unknown)) ;;
      notify_tray prev_mode ;;
      refresh_candidates ;;
      mode <- read current_mode ;;
      emit (print (msg_backspace buf mode)) ;;
      returned RetNone
    else fall_through
  else fall_through.

(** Case 2, lines 300-303: Escape. *)
Definition press_esc (key : Key) : Block :=
  if key_eqb key Key_esc then
    emit (print msg_esc_pressed) ;;
    emit stop_event_set ;;
    returned RetFalse
  else fall_through.

(** Case 3, lines 306-332: a letter. *)
Definition press_letter (ch : option char) : Block :=
  match ch with
  | Some c =>
      if isalpha c then
        assign (fun st => set_raw_input_buffer (raw_input_buffer st ++ [c]) st) ;;
        prev_mode <- read current_mode ;;
        raw <- read raw_input_buffer ;;
        (if is_pinyin_sequence_prefix raw then
           assign (set_current_mode pinyin) ;;
           assign (set_input_buffer raw)
         else
           assign (set_current_mode english) ;;
           assign (set_input_buffer raw)) ;;
        notify_tray prev_mode ;;
        refresh_candidates ;;
        buf <- read input_buffer ;;
        mode <- read current_mode ;;
        cands <- read current_candidates ;;
        emit (print (msg_input buf mode cands)) ;;
        returned RetNone
      else fall_through
  | None => fall_through
  end.

(** Case 4, lines 335-355: Space and Enter. *)
Definition press_commit (key : Key) : Block :=
  if key_in key [Key_space; Key_enter] then
    buf <- read input_buffer ;;
    (if truthy buf then
       mode <- read current_mode ;;
       (if mode_eqb mode pinyin then
          cands <- read current_candidates ;;
          let output := match cands with
                        | first :: _ => first
                        | [] => buf
                        end in
          emit (print (msg_commit output))
        else
          let output := buf in
          emit (print (msg_commit output))) ;;
       clear_buffers
     else ret tt) ;;
    returned RetNone
  else fall_through.

(** [int(ch)] for a decimal digit [ch]. *)
Definition int_of_digit (ch : char) : Z := Z.of_N ch - 48.

(** Case 5, lines 358-371: the digits 1 to 5. *)
Definition press_digit (ch : option char) : Block :=
  match ch with
  | Some c =>
      if isdigit c && existsb (N.eqb c) (str_of "12345") then
        mode <- read current_mode ;;
        cands <- read current_candidates ;;
        if mode_eqb mode pinyin && truthy cands then
          let idx := (int_of_digit c - 1)%Z in
          if (idx <? Z.of_nat (length cands))%Z then
            let output := nth (Z.to_nat idx) cands [] in
            emit (print (msg_select output)) ;;
            clear_buffers ;;
            returned RetNone
          else fall_through
        else fall_through
      else fall_through
  | None => fall_through
  end.

(** Running off the end of the function returns [None]. *)
Definition finish (b : Block) : Cmd PyRet :=
  r <- b ;;
  ret match r with
      | Some v => v
      | None => RetNone
      end.

(** [on_press(key)], lines 212-371. *)
Definition on_press (key : Key) : Cmd PyRet :=
  let ch := key_char key in
  finish (or_else (press_ctrl key)
         (or_else (press_shift key)
         (or_else (press_backspace key)
         (or_else (press_esc key)
         (or_else (press_letter ch)
         (or_else (press_commit key)
                  (press_digit ch))))))).

(** [on_release(key)], lines 375-397. *)
Definition on_release (key : Key) : Cmd PyRet :=
  finish (or_else (if key_in key ctrl_keys then
                     assign (set_ctrl_pressed false) ;; returned RetNone
                   else fall_through)
         (or_else (if key_in key shift_keys then
                     assign (set_shift_pressed false) ;; returned RetNone
                   else fall_through)
                  (if key_eqb key Key_esc then
                     emit (print msg_esc_released) ;;
                     emit stop_event_set ;;
                     returned RetFalse
                   else fall_through))).

(* ===================================================================== *)
(** * The listener and the reachable states *)
(* ===================================================================== *)

Inductive Event : Type :=
| Press (key : Key)
| Release (key : Key).

Definition callback (ev : Event) : Cmd PyRet :=
  match ev with
  | Press key => on_press key
  | Release key => on_release key
  end.

(** [keyboard.Listener(on_press, on_release)] fed the events [evs]: each
    event runs its callback to the end before the next is delivered, and a
    callback that returns [False] stops the listener. *)
Fixpoint listener (evs : list Event) (st : State) : State * list Effect :=
  match evs with
  | [] => (st, [])
  | ev :: rest =>
      match callback ev st with
      | (RetFalse, st1, out1) => (st1, out1)
      | (RetNone, st1, out1) =>
          let '(st2, out2) := listener rest st1 in (st2, out1 ++ out2)
      end
  end.

(** The states the program can be in. *)
Definition reachable (st : State) : Prop :=
  exists evs : list Event, fst (listener evs initial_state) = st.

End Callbacks.

(* ===================================================================== *)
(** * Concrete libraries to run the model on *)
(* ===================================================================== *)

(** CPython's tables on the Latin-1 Supplement (U+0080 to U+00FF); the code
    points above it are given no letters and no digits here. *)
Definition latin1_tables : UnicodeData :=
  {| uc_isalpha c :=
       (N.eqb c 170 || N.eqb c 181 || N.eqb c 186
        || (192 <=? c) && (c <=? 214)
        || (216 <=? c) && (c <=? 246)
        || (248 <=? c) && (c <=? 255))%N;
     uc_isdigit c := (N.eqb c 178 || N.eqb c 179 || N.eqb c 185)%N;
     uc_lower c :=
       if ((192 <=? c) && (c <=? 222) && negb (N.eqb c 215))%N
       then [(c + 32)%N] else [c] |}.

(** The five candidates of the specification's scenario E. *)
Definition hanzi_ni : list (list str) :=
  [[[20320%N]]; [[23612%N]]; [[21602%N]]; [[25311%N]]; [[27877%N]]].

(** A small stand-in for Pinyin2Hanzi: an item is its path; ["ni"] has the
    five paths above, ["ni", "ha", "o"] one path of two characters, a list
    starting with ["zz"] makes [dag] raise, anything else has no path. *)
Definition toy_dag : Pinyin2Hanzi :=
  {| DagParams := unit;
     Item := list str;
     path := fun item => item;
     params_truthy := fun _ => true;
     DefaultDagParams := tt;
     dag := fun _ pinyin_list _ =>
       match pinyin_list with
       | [[110; 105]%N] => Ok hanzi_ni
       | [[110; 105]%N; [104; 97]%N; [111%N]] => Ok [[[20320%N]; [22909%N]]]
       | [122; 122]%N :: _ =>
           Raise {| is_Exception := true; exc_text := str_of "KeyError" |}
       | _ => Ok []
       end |}.

(** The splitting as the specification words it: chunks of two characters
    taken greedily from the left, and a final chunk of one character when the
    length is odd. *)
Fixpoint spec_chunks (s : str) : list str :=
  match s with
  | a :: b :: rest => [a; b] :: spec_chunks rest
  | [a] => [[a]]
  | [] => []
  end.

(** A library that behaves as [P] does, except that [dag] returns no path
    where [P]'s raises. *)
Definition never_raising (P : Pinyin2Hanzi) : Pinyin2Hanzi :=
  {| DagParams := @DagParams P;
     Item := @Item P;
     path := @path P;
     params_truthy := @params_truthy P;
     DefaultDagParams := @DefaultDagParams P;
     dag := fun params pinyin_list path_num =>
       match @dag P params pinyin_list path_num with
       | Ok result => Ok result
       | Raise _ => Ok []
       end |}.

(* ===================================================================== *)
(** * Vocabulary of the statements *)
(* ===================================================================== *)

(** The two sets of letters as the specification lists them. *)
Definition in_pinyin_sets (c : char) : Prop :=
  In c (str_of "bpmfdztnlgkhjqxcs") \/ In c (str_of "aeiou" ++ [u_umlaut] ++ str_of "v").

Section Outcomes.
Context {U : UnicodeData} {P : Pinyin2Hanzi}.

(** The mode Ctrl+Shift switches to, lines 247-255. *)
Definition switched (mode : Mode) : Mode :=
  match mode with
  | pinyin => english
  | english => pinyin
  | unknown => pinyin
  end.

(** The rest state a commit leaves, lines 350-353 and 366-369. *)
Definition rest_state (st : State) : State :=
  {| current_mode := unknown; input_buffer := []; raw_input_buffer := [];
     current_candidates := [];
     ctrl_pressed := ctrl_pressed st; shift_pressed := shift_pressed st |}.

(** The hide message, [UIState(visible=False, buffer="", candidates=[])]. *)
Definition hide : UIState := {| visible := false; buffer := []; candidates := [] |}.

(** The text Space or Enter commits, lines 337-346. *)
Definition committed (mode : Mode) (cands : list str) (buf : str) : str :=
  match mode, cands with
  | pinyin, first :: _ => first
  | _, _ => buf
  end.

(** The number a digit key stands for. *)
Definition digit_value (d : char) : nat := N.to_nat (d - 48).

(** What the tray is told when the mode goes from [prev_mode] to [mode]. *)
Definition tray_updates (prev_mode mode : Mode) : list Effect :=
  if negb (mode_eqb mode prev_mode) && (mode_eqb mode pinyin || mode_eqb mode english)
  then [update_tray_menu mode; update_tray_icon_image mode]
  else [].

(** What the lookup prints and the UI is sent once mode and buffer are set. *)
Definition ui_updates (mode : Mode) (buf : str) : list Effect :=
  if mode_eqb mode pinyin
  then snd (get_top_candidates buf 5)
       ++ [ui_queue_put {| visible := true; buffer := buf;
                           candidates := fst (get_top_candidates buf 5) |}]
  else [ui_queue_put {| visible := false; buffer := buf; candidates := [] |}].

(** The state after a letter [c] was typed, lines 307-329. *)
Definition after_letter (c : char) (st : State) : State :=
  let raw := raw_input_buffer st ++ [c] in
  let mode := mode_of_buffer raw in
  {| current_mode := mode; input_buffer := raw; raw_input_buffer := raw;
     current_candidates :=
       if mode_eqb mode pinyin then fst (get_top_candidates raw 5) else [];
     ctrl_pressed := ctrl_pressed st; shift_pressed := shift_pressed st |}.

(** The state after a Backspace that is handled, lines 271-293. *)
Definition after_backspace (st : State) : State :=
  let buf := slice_to (input_buffer st) (-1) in
  let mode := if truthy buf then mode_of_buffer buf else unknown in
  {| current_mode := mode; input_buffer := buf;
     raw_input_buffer := slice_to (raw_input_buffer st) (-1);
     current_candidates :=
       if mode_eqb mode pinyin then fst (get_top_candidates buf 5) else [];
     ctrl_pressed := ctrl_pressed st; shift_pressed := shift_pressed st |}.

(** The two buffers hold the same text. *)
Definition buffers_agree (st : State) : Prop :=
  input_buffer st = raw_input_buffer st.

(** The mode of a non-empty buffer is the one the classifier gives it. *)
Definition mode_follows_buffer (st : State) : Prop :=
  input_buffer st <> [] -> current_mode st = mode_of_buffer (input_buffer st).

(** Candidates are only kept in Pinyin mode, for a non-empty buffer. *)
Definition candidates_need_pinyin (st : State) : Prop :=
  current_candidates st <> [] -> current_mode st = pinyin /\ input_buffer st <> [].

Definition consistent (st : State) : Prop :=
  buffers_agree st /\ mode_follows_buffer st /\ candidates_need_pinyin st.

End Outcomes.

(** Keys of letters and digits. *)
Definition key_of (c : String.string) : Key :=
  KeyCode (match str_of c with
           | ch :: _ => Some ch
           | [] => None
           end).
Arguments key_of c%_string.

(** After "n", "i" were typed: scenario A of the specification. *)
Definition typed_ni : list Event :=
  [Press (key_of "n"); Release (key_of "n"); Press (key_of "i"); Release (key_of "i")].

Definition state_ni : State := fst (@listener latin1_tables toy_dag typed_ni initial_state).

(* ===================================================================== *)
(** * Vocabulary of the further properties *)
(* ===================================================================== *)

(** Typing a text: the key of each character is pressed and released. *)
Definition typing (text : str) : list Event :=
  flat_map (fun c => [Press (KeyCode (Some c)); Release (KeyCode (Some c))]) text.

(** The UIState that shows a state in full. *)
Definition display_of (st : State) : UIState :=
  {| visible := mode_eqb (current_mode st) pinyin;
     buffer := input_buffer st;
     candidates := current_candidates st |}.

(** The last UIState put on the queue by [out]; [before] if it puts none. *)
Definition last_ui_put (before : option UIState) (out : list Effect) : option UIState :=
  fold_left (fun last e => match e with ui_queue_put u => Some u | _ => last end)
            out before.

(** The mode of the last [update_tray_menu] call of [out]. *)
Definition last_tray_menu (before : option Mode) (out : list Effect) : option Mode :=
  fold_left (fun last e => match e with update_tray_menu m => Some m | _ => last end)
            out before.

(** The mode of the last [update_tray_icon_image] call of [out]. *)
Definition last_tray_icon (before : option Mode) (out : list Effect) : option Mode :=
  fold_left (fun last e => match e with update_tray_icon_image m => Some m | _ => last end)
            out before.

(** Whether [out] sets the stop event. *)
Definition sets_stop_event (out : list Effect) : bool :=
  existsb (fun e => match e with stop_event_set => true | _ => false end) out.

(** Whether an event is a press or a release of Escape. *)
Definition is_escape (ev : Event) : bool :=
  match ev with
  | Press Key_esc | Release Key_esc => true
  | _ => false
  end.

(** The last message on the queue shows the state; with no message yet the
    state is at rest. *)
Definition ui_shows (st : State) (last : option UIState) : Prop :=
  match last with
  | Some u => u = display_of st
  | None => current_mode st = unknown /\ input_buffer st = []
            /\ current_candidates st = []
  end.

(** The tray was last told the mode, unless the mode is Unknown, which it
    is never told; menu and icon are told the same. *)
Definition tray_told (st : State) (menu icon : option Mode) : Prop :=
  menu = icon /\ menu <> Some unknown
  /\ (current_mode st <> unknown -> menu = Some (current_mode st)).

Section FurtherVocabulary.
Context {U : UnicodeData} {P : Pinyin2Hanzi}.

(** In Pinyin mode the candidates are those of the buffer as it is now. *)
Definition candidates_fresh (st : State) : Prop :=
  current_mode st = pinyin -> input_buffer st <> [] ->
  current_candidates st = fst (get_top_candidates (input_buffer st) 5).

(** The buffer holds alphabetic characters only. *)
Definition buffer_alphabetic (st : State) : Prop :=
  forallb isalpha (raw_input_buffer st) = true.

End FurtherVocabulary.

(** ** The tray menu *)

(** The two callbacks of the menu items, lines 471-474: the [lambda] that
    does nothing and the one that calls [quit_from_tray]. *)
Inductive MenuAction : Type := action_none | action_quit.

(** An entry of a [pystray.Menu]. *)
Inductive MenuEntry : Type :=
| MenuItem (text : str) (action : MenuAction)
| SEPARATOR.

(** The literals of lines 463-474. *)
Definition text_pinyin_mode : str :=
  [20013; 25991; 27169; 24335; 32; 127464; 127475]%N.
Definition text_english_mode : str :=
  [33521; 25991; 27169; 24335; 32; 127468; 127463]%N.
Definition text_unknown_mode : str := [26410; 30693; 27169; 24335]%N.
Definition text_current_mode : str := [24403; 21069; 27169; 24335; 58; 32]%N.
Definition text_force_switch : str :=
  [24378; 21046; 20999; 25442; 27169; 24335; 32]%N ++ str_of "(Ctrl+Shift)".
Definition text_quit : str := [36864; 20986; 32]%N ++ str_of "(ESC)".

(** The tray icon object as far as [update_tray_menu] touches it, and the two
    globals [tray_icon] and [tray_menu], lines 148-149. *)
Record Tray : Type := {
  tray_icon : option (list MenuEntry);      (* the icon's [menu], if an icon exists *)
  tray_menu : option (list MenuEntry)
}.

(** [update_tray_menu(mode)] as a function on the two globals, lines 453-478. *)
Definition run_update_tray_menu (mode : Mode) (tray : Tray) : Tray :=
  let mode_text :=
    match mode with
    | pinyin => text_pinyin_mode
    | english => text_english_mode
    | unknown => text_unknown_mode
    end in
  let menu :=
    [MenuItem (text_current_mode ++ mode_text) action_none;
     MenuItem text_force_switch action_none;
     SEPARATOR;
     MenuItem text_quit action_quit] in
  {| tray_menu := Some menu;
     tray_icon := match tray_icon tray with
                  | Some _ => Some menu           (* if tray_icon: tray_icon.menu = ... *)
                  | None => None
                  end |}.

(** The [update_tray_menu] calls of [out], carried out in order. *)
Definition replay_tray_menu (out : list Effect) (tray : Tray) : Tray :=
  fold_left (fun t e => match e with
                        | update_tray_menu m => run_update_tray_menu m t
                        | _ => t
                        end) out tray.

(** The globals once [setup_tray] has created the icon, lines 495-506. *)
Definition tray_after_setup : Tray :=
  let menu :=
    [MenuItem (text_current_mode ++ text_unknown_mode) action_none;
     MenuItem text_force_switch action_none;
     SEPARATOR;
     MenuItem text_quit action_quit] in
  {| tray_icon := Some menu; tray_menu := Some menu |}.

(** The text of the first entry of a menu. *)
Definition status_line (menu : option (list MenuEntry)) : option str :=
  match menu with
  | Some (MenuItem text _ :: _) => Some text
  | _ => None
  end.

#[global] Arguments slice_to : simpl never.

(** Unfold the blocks of a callback and the monad, then compute. *)
Ltac run_blocks :=
  cbv [finish or_else bind ret read assign emit call returned fall_through
       press_ctrl press_shift press_backspace press_esc press_letter
       press_commit press_digit notify_tray refresh_candidates clear_buffers
       key_in ctrl_keys shift_keys key_char
       set_current_mode set_input_buffer set_raw_input_buffer
       set_current_candidates set_ctrl_pressed set_shift_pressed];
  cbn.

(* ===================================================================== *)
(** * Strings, slices and character classes: basic facts *)
(* ===================================================================== *)

Lemma str_eqb_eq (a b : str) : str_eqb a b = true <-> a = b.
Proof.
  revert b; induction a as [|x a IH]; intros [|y b]; simpl; try easy.
  rewrite andb_true_iff, N.eqb_eq, IH.
  split; [intros [-> ->]; reflexivity | intros [= -> ->]; auto].
Qed.

Lemma str_in_set_of_chars (x : char) (literal : str) :
  str_in [x] (set_of_chars literal) = existsb (N.eqb x) literal.
Proof.
  unfold str_in, set_of_chars.
  induction literal as [|y l IH]; [reflexivity|].
  cbn [map existsb]. rewrite IH. cbn [str_eqb].
  rewrite andb_true_r. reflexivity.
Qed.

Lemma existsb_eqb_In (x : char) (l : str) : existsb (N.eqb x) l = true <-> In x l.
Proof.
  rewrite existsb_exists. split.
  - intros [y [Hin Heq]]. apply N.eqb_eq in Heq. subst. exact Hin.
  - intros Hin. exists x. split; [exact Hin | apply N.eqb_refl].
Qed.

Lemma truthy_true {A : Type} (l : list A) : truthy l = true <-> l <> [].
Proof. destruct l; simpl; split; congruence. Qed.

Lemma truthy_false {A : Type} (l : list A) : truthy l = false <-> l = [].
Proof. destruct l; simpl; split; congruence. Qed.

Lemma slice_to_nil {A : Type} (k : Z) : slice_to (@nil A) k = [].
Proof. unfold slice_to. destruct (k <? 0)%Z; apply firstn_nil. Qed.

(** [l[:-1]] drops the last element. *)
Lemma slice_to_minus_one_app {A : Type} (l : list A) (x : A) :
  slice_to (l ++ [x]) (-1) = l.
Proof.
  unfold slice_to. simpl (_ <? _)%Z. cbv iota.
  rewrite length_app. simpl length.
  replace (Z.to_nat (Z.max 0 (Z.of_nat (length l + 1) + -1))) with (length l) by lia.
  rewrite firstn_app, Nat.sub_diag, firstn_all. simpl. apply app_nil_r.
Qed.

Lemma slice_to_minus_one {A : Type} (l : list A) : slice_to l (-1) = removelast l.
Proof.
  induction l as [|x l _] using rev_ind; [reflexivity|].
  rewrite slice_to_minus_one_app, removelast_last. reflexivity.
Qed.

(** The ASCII letters are alphabetic, and lower-casing keeps them so. *)
Lemma latin_letter_is_ascii (c : char) : is_latin_letter c = true -> is_ascii c = true.
Proof.
  unfold is_latin_letter, is_ascii_upper, is_ascii_lower, is_ascii. intros H.
  apply N.ltb_lt.
  apply orb_true_iff in H as [H|H]; apply andb_true_iff in H as [_ H];
    apply N.leb_le in H; lia.
Qed.

Lemma ascii_lower_is_lower (c : char) :
  is_latin_letter c = true -> is_ascii_lower (ascii_lower c) = true.
Proof.
  unfold is_latin_letter, ascii_lower. intros H.
  destruct (is_ascii_upper c) eqn:Hu; [| exact H].
  unfold is_ascii_upper in Hu. unfold is_ascii_lower.
  apply andb_true_iff in Hu as [H1 H2]. apply N.leb_le in H1, H2.
  apply andb_true_iff. split; apply N.leb_le; lia.
Qed.

Section ClassifierFacts.
Context {U : UnicodeData}.

Lemma isalpha_latin (c : char) : is_latin_letter c = true -> isalpha c = true.
Proof.
  intros H. unfold isalpha. rewrite (latin_letter_is_ascii c H). exact H.
Qed.

Lemma lower_char_latin (c : char) :
  is_latin_letter c = true -> lower_char c = [ascii_lower c].
Proof.
  intros H. unfold lower_char. rewrite (latin_letter_is_ascii c H). reflexivity.
Qed.

(** A string of ASCII letters passes the [all(c.isalpha() ...)] test. *)
Lemma lower_latin_all_alpha (text : str) :
  forallb is_latin_letter text = true -> forallb isalpha (lower text) = true.
Proof.
  induction text as [|c text IH]; [reflexivity|].
  cbn [forallb]. intros H. apply andb_true_iff in H as [Hc Ht].
  unfold lower. cbn [flat_map]. rewrite (lower_char_latin c Hc).
  cbn [app forallb]. fold (lower text). rewrite (IH Ht), andb_true_r.
  apply isalpha_latin. unfold is_latin_letter.
  rewrite (ascii_lower_is_lower c Hc). apply orb_true_r.
Qed.

(** The classifier, unfolded on a non-empty text. *)
Lemma is_pinyin_sequence_prefix_cons (c : char) (text : str) :
  is_pinyin_sequence_prefix (c :: text) =
  forallb isalpha (lower (c :: text))
  && (str_in (lower_char c) valid_initials || str_in (lower_char c) valid_finals).
Proof.
  unfold is_pinyin_sequence_prefix.
  destruct (forallb isalpha (lower (c :: text))); [| reflexivity].
  destruct (str_in (lower_char c) valid_initials),
           (str_in (lower_char c) valid_finals); reflexivity.
Qed.

(** The test on the letters of a text distributes over concatenation. *)
Lemma all_alpha_app (a b : str) :
  forallb isalpha (lower (a ++ b)) =
  forallb isalpha (lower a) && forallb isalpha (lower b).
Proof.
  unfold lower. rewrite flat_map_app, forallb_app. reflexivity.
Qed.

(** Dropping the last character of a text that classifies as Pinyin leaves a
    text that classifies as Pinyin, unless nothing is left. *)
Lemma is_pinyin_sequence_prefix_init (text : str) (c : char) :
  text <> [] ->
  is_pinyin_sequence_prefix (text ++ [c]) = true ->
  is_pinyin_sequence_prefix text = true.
Proof.
  destruct text as [|c0 text]; [congruence|]. intros _.
  rewrite <- app_comm_cons, !is_pinyin_sequence_prefix_cons.
  rewrite app_comm_cons, all_alpha_app.
  intros H. apply andb_true_iff in H as [H1 H2].
  apply andb_true_iff in H1 as [H1 _]. rewrite H1, H2. reflexivity.
Qed.

(** Appending an alphabetic character to a non-empty text does not change
    how it classifies. *)
Lemma is_pinyin_sequence_prefix_snoc (text : str) (c : char) :
  text <> [] ->
  forallb isalpha (lower_char c) = true ->
  is_pinyin_sequence_prefix (text ++ [c]) = is_pinyin_sequence_prefix text.
Proof.
  destruct text as [|c0 text]; [congruence|]. intros _ Hc.
  rewrite <- app_comm_cons, !is_pinyin_sequence_prefix_cons.
  rewrite app_comm_cons, all_alpha_app.
  unfold lower at 2. cbn [flat_map]. rewrite app_nil_r, Hc, andb_true_r.
  reflexivity.
Qed.

End ClassifierFacts.

(* ===================================================================== *)
(** * The classifier on strings of Latin letters *)
(* ===================================================================== *)

Lemma in_valid_sets (c : char) :
  str_in [c] valid_initials || str_in [c] valid_finals = true <-> in_pinyin_sets c.
Proof.
  unfold valid_initials, valid_finals, in_pinyin_sets.
  rewrite !str_in_set_of_chars, orb_true_iff, !existsb_eqb_In.
  cbn. tauto.
Qed.

Lemma is_pinyin_latin {U : UnicodeData} (c : char) (text : str) :
  forallb is_latin_letter (c :: text) = true ->
  (is_pinyin_sequence_prefix (c :: text) = true <-> in_pinyin_sets (ascii_lower c)).
Proof.
  intros H. rewrite is_pinyin_sequence_prefix_cons, (lower_latin_all_alpha _ H).
  cbn [forallb] in H. apply andb_true_iff in H as [Hc _].
  rewrite (lower_char_latin c Hc). cbn [andb]. apply in_valid_sets.
Qed.

(** C3. For every non-empty string [S] of Latin letters the classifier gives
    Pinyin exactly when the lower-cased first character of [S] is one of
    b p m f d z t n l g k h j q x c s or one of a e i o u U+00FC v, and
    English otherwise; two such strings whose first characters agree up to
    case are classified alike. *)
Theorem classifier_first_letter {U : UnicodeData} (S : str) :
  S <> [] ->
  forallb is_latin_letter S = true ->
  let first := ascii_lower (hd 0%N S) in
  (is_pinyin_sequence_prefix S = true <-> in_pinyin_sets first) /\
  (mode_of_buffer S = pinyin <-> in_pinyin_sets first) /\
  (mode_of_buffer S = english <-> ~ in_pinyin_sets first) /\
  (forall T : str,
      T <> [] -> forallb is_latin_letter T = true ->
      ascii_lower (hd 0%N T) = first ->
      is_pinyin_sequence_prefix T = is_pinyin_sequence_prefix S /\
      mode_of_buffer T = mode_of_buffer S).
Proof.
  destruct S as [|c S]; [congruence|]. intros _ HS. cbn [hd]. cbv zeta.
  pose proof (is_pinyin_latin c S HS) as Hc.
  assert (Hmode : mode_of_buffer (c :: S) = pinyin <-> in_pinyin_sets (ascii_lower c)).
  { unfold mode_of_buffer. rewrite <- Hc.
    destruct (is_pinyin_sequence_prefix (c :: S)); split; congruence. }
  repeat split.
  - apply Hc.
  - apply Hc.
  - apply Hmode.
  - apply Hmode.
  - intros He Hin. apply Hmode in Hin. congruence.
  - intros Hn. unfold mode_of_buffer.
    destruct (is_pinyin_sequence_prefix (c :: S)); [| reflexivity].
    exfalso. apply Hn, Hc. reflexivity.
  - destruct T as [|d T]; [congruence|]. cbn [hd] in *.
    pose proof (is_pinyin_latin d T H0) as Hd. rewrite H1 in Hd.
    destruct (is_pinyin_sequence_prefix (d :: T)), (is_pinyin_sequence_prefix (c :: S));
      try reflexivity.
    + symmetry. apply Hc, Hd. reflexivity.
    + apply Hd, Hc. reflexivity.
  - destruct T as [|d T]; [congruence|]. cbn [hd] in *.
    pose proof (is_pinyin_latin d T H0) as Hd. rewrite H1 in Hd.
    unfold mode_of_buffer.
    destruct (is_pinyin_sequence_prefix (d :: T)), (is_pinyin_sequence_prefix (c :: S));
      try reflexivity; exfalso.
    + assert (false = true) by (apply Hc, Hd; reflexivity). discriminate.
    + assert (false = true) by (apply Hd, Hc; reflexivity). discriminate.
Qed.

(* ===================================================================== *)
(** * Single key presses *)
(* ===================================================================== *)

Section Presses.
Context {U : UnicodeData} {P : Pinyin2Hanzi}.

(** ** Ctrl+Shift *)

(** C1 (amended). When Shift is pressed while Ctrl is held, for every current
    state the mode is force-switched (Pinyin to English, English to Pinyin,
    Unknown to Pinyin), both buffers and the candidate list are cleared, and
    one UIState with empty buffer and candidates is put on the UI queue whose
    [visible] flag is true exactly when the new mode is Pinyin: it is a hide
    message only for the switch from Pinyin to English. *)
Theorem ctrl_shift_switches (st : State) (key : Key) :
  ctrl_pressed st = true ->
  In key shift_keys ->
  on_press key st =
  (RetNone,
   {| current_mode := switched (current_mode st);
      input_buffer := []; raw_input_buffer := []; current_candidates := [];
      ctrl_pressed := true; shift_pressed := true |},
   [print (match current_mode st with
           | pinyin => msg_switch_english
           | _ => msg_switch_pinyin
           end);
    ui_queue_put {| visible := mode_eqb (switched (current_mode st)) pinyin;
                    buffer := []; candidates := [] |};
    update_tray_menu (switched (current_mode st));
    update_tray_icon_image (switched (current_mode st))]).
Proof.
  intros Hctrl Hkey.
  destruct Hkey as [<-|[<-|[<-|[]]]];
    unfold on_press; run_blocks; rewrite Hctrl; cbn;
    destruct (current_mode st); cbn; rewrite ?Hctrl; reflexivity.
Qed.

(** ** A letter key *)

Lemma on_press_letter (c : char) (st : State) :
  isalpha c = true ->
  on_press (KeyCode (Some c)) st =
  (RetNone, after_letter c st,
   tray_updates (current_mode st) (current_mode (after_letter c st))
   ++ ui_updates (current_mode (after_letter c st)) (raw_input_buffer st ++ [c])
   ++ [print (msg_input (raw_input_buffer st ++ [c])
                        (current_mode (after_letter c st))
                        (current_candidates (after_letter c st)))]).
Proof.
  intros Hc. unfold on_press, after_letter, tray_updates, ui_updates, mode_of_buffer.
  run_blocks. rewrite Hc. cbn.
  destruct (is_pinyin_sequence_prefix (raw_input_buffer st ++ [c])); cbn.
  - destruct (current_mode st); cbn; rewrite <- ?app_assoc; reflexivity.
  - destruct (current_mode st); cbn; reflexivity.
Qed.

(** ** Backspace *)

Lemma on_press_backspace (st : State) :
  current_mode st = pinyin ->
  input_buffer st <> [] ->
  on_press Key_backspace st =
  (RetNone, after_backspace st,
   tray_updates pinyin (current_mode (after_backspace st))
   ++ ui_updates (current_mode (after_backspace st)) (input_buffer (after_backspace st))
   ++ [print (msg_backspace (input_buffer (after_backspace st))
                            (current_mode (after_backspace st)))]).
Proof.
  intros Hmode Hbuf. apply truthy_true in Hbuf.
  destruct st as [mode buf raw cands ctrl shift]. cbn in Hmode, Hbuf. subst mode.
  unfold on_press, after_backspace, tray_updates, ui_updates, mode_of_buffer.
  run_blocks. rewrite Hbuf. cbn.
  destruct (truthy (slice_to buf (-1))); cbn; [| reflexivity].
  destruct (is_pinyin_sequence_prefix (slice_to buf (-1))); cbn;
    rewrite <- ?app_assoc; reflexivity.
Qed.

Lemma on_press_backspace_ignored (st : State) :
  current_mode st <> pinyin \/ input_buffer st = [] ->
  on_press Key_backspace st = (RetNone, st, []).
Proof.
  intros H. unfold on_press. run_blocks.
  destruct H as [H|H].
  - destruct (current_mode st); [congruence | reflexivity | reflexivity].
  - rewrite H. cbn. rewrite andb_false_r. reflexivity.
Qed.

(** ** Space and Enter *)

Lemma on_press_commit (st : State) (key : Key) :
  In key [Key_space; Key_enter] ->
  input_buffer st <> [] ->
  on_press key st =
  (RetNone, rest_state st,
   [print (msg_commit (committed (current_mode st) (current_candidates st)
                                 (input_buffer st)));
    ui_queue_put hide]).
Proof.
  intros Hkey Hbuf. apply truthy_true in Hbuf.
  destruct Hkey as [<-|[<-|[]]]; unfold on_press, rest_state, committed, hide;
    run_blocks; rewrite Hbuf; cbn;
    destruct (current_mode st); cbn; try reflexivity;
    destruct (current_candidates st); reflexivity.
Qed.

Lemma on_press_commit_empty (st : State) (key : Key) :
  In key [Key_space; Key_enter] ->
  input_buffer st = [] ->
  on_press key st = (RetNone, st, []).
Proof.
  intros Hkey Hbuf.
  destruct Hkey as [<-|[<-|[]]]; unfold on_press; run_blocks; rewrite Hbuf;
    reflexivity.
Qed.

(** ** The digit keys *)

Lemma ascii_digit_cases (d : char) :
  is_ascii_digit d = true ->
  (d = 48 \/ d = 49 \/ d = 50 \/ d = 51 \/ d = 52 \/ d = 53 \/ d = 54 \/ d = 55
   \/ d = 56 \/ d = 57)%N.
Proof.
  unfold is_ascii_digit. intros H. apply andb_true_iff in H as [H1 H2].
  apply N.leb_le in H1, H2. lia.
Qed.

(** A character key that is no letter reaches the digit block. *)
Lemma on_press_not_letter (st : State) (c : char) :
  isalpha c = false ->
  on_press (KeyCode (Some c)) st = finish (press_digit (Some c)) st.
Proof.
  intros Hc. unfold on_press.
  cbv [finish or_else bind ret read assign emit call returned fall_through
       press_ctrl press_shift press_backspace press_esc press_letter
       press_commit key_in ctrl_keys shift_keys key_char existsb key_eqb orb].
  rewrite Hc. destruct (press_digit (Some c) st) as [[r st'] out].
  reflexivity.
Qed.

Lemma press_digit_selects (st : State) (d : char) (k : nat) :
  isdigit d = true ->
  existsb (N.eqb d) (str_of "12345") = true ->
  int_of_digit d = Z.of_nat k ->
  1 <= k ->
  press_digit (Some d) st =
  if mode_eqb (current_mode st) pinyin && (k <=? length (current_candidates st))
  then (Some RetNone, rest_state st,
        [print (msg_select (nth (k - 1) (current_candidates st) []));
         ui_queue_put hide])
  else (None, st, []).
Proof.
  intros Hdigit Hin Hint Hk.
  destruct st as [mode buf raw cands ctrl shift].
  unfold press_digit. rewrite Hdigit, Hin, Hint. cbn [andb].
  cbv [bind read fall_through ret current_mode current_candidates].
  destruct mode; cbn [mode_eqb andb]; try reflexivity.
  destruct cands as [|c1 cands]; cbn [truthy].
  - destruct (Nat.leb_spec k (length (@nil str))); [cbn in *; lia | reflexivity].
  - destruct (Z.ltb_spec (Z.of_nat k - 1) (Z.of_nat (length (c1 :: cands))));
      destruct (Nat.leb_spec k (length (c1 :: cands))); try lia; try reflexivity.
    replace (Z.to_nat (Z.of_nat k - 1)) with (k - 1) by lia.
    reflexivity.
Qed.

Lemma press_digit_other (st : State) (d : char) :
  existsb (N.eqb d) (str_of "12345") = false ->
  press_digit (Some d) st = (None, st, []).
Proof.
  intros Hin. unfold press_digit. rewrite Hin, andb_false_r. reflexivity.
Qed.

Lemma on_press_digit (st : State) (d : char) :
  is_ascii_digit d = true ->
  on_press (KeyCode (Some d)) st =
  if mode_eqb (current_mode st) pinyin
     && (1 <=? digit_value d) && (digit_value d <=? 5)
     && (digit_value d <=? length (current_candidates st))
  then (RetNone, rest_state st,
        [print (msg_select (nth (digit_value d - 1) (current_candidates st) []));
         ui_queue_put hide])
  else (RetNone, st, []).
Proof.
  intros Hd. apply ascii_digit_cases in Hd.
  repeat destruct Hd as [Hd|Hd]; subst d;
    (rewrite on_press_not_letter by reflexivity); unfold finish, bind.
  1, 7, 8, 9, 10:
    rewrite press_digit_other by reflexivity;
    match goal with
    | |- _ = if ?b then _ else _ =>
        replace b with false
          by (symmetry; destruct (current_mode st); reflexivity)
    end; reflexivity.
  all: match goal with
       | |- context [press_digit (Some ?d)] =>
           rewrite (@press_digit_selects st d (digit_value d))
             by (try reflexivity; cbv; lia)
       end;
       match goal with
       | |- context [press_digit] => fail 1
       | |- _ = if ?b then _ else _ =>
           match b with
           | _ && ?len =>
               replace b with (mode_eqb (current_mode st) pinyin && len)
                 by (destruct (current_mode st); reflexivity)
           end
       end;
       destruct (mode_eqb (current_mode st) pinyin && _); reflexivity.
Qed.

(** C2. When Space or Enter is pressed with a non-empty RawBuffer (the two
    buffer variables holding the same text, as they do in every reachable
    state), the text committed is the first candidate if the mode is Pinyin
    and there is a candidate, else the buffer verbatim; afterwards the mode
    is Unknown, both buffers and the candidate list are empty, and the hide
    message has been put on the UI queue.  With an empty RawBuffer the key
    changes no state and has no effect. *)
Theorem space_enter_commits (st : State) (key : Key) :
  In key [Key_space; Key_enter] ->
  input_buffer st = raw_input_buffer st ->
  (raw_input_buffer st <> [] ->
   on_press key st =
   (RetNone,
    {| current_mode := unknown; input_buffer := []; raw_input_buffer := [];
       current_candidates := [];
       ctrl_pressed := ctrl_pressed st; shift_pressed := shift_pressed st |},
    [print (msg_commit
              match current_mode st, current_candidates st with
              | pinyin, first :: _ => first
              | _, _ => raw_input_buffer st
              end);
     ui_queue_put {| visible := false; buffer := []; candidates := [] |}]))
  /\
  (raw_input_buffer st = [] -> on_press key st = (RetNone, st, [])).
Proof.
  intros Hkey Hagree. split; intros Hraw.
  - rewrite <- Hagree in *. apply on_press_commit; assumption.
  - rewrite <- Hagree in Hraw. apply on_press_commit_empty; assumption.
Qed.

(** C5. Pressing the digit key [k] commits candidate number [k] (index
    [k - 1]), resets both buffers, the candidate list and the mode to the
    empty/Unknown rest state and hides the UI, if the mode is Pinyin, the
    candidate list has at least [k] entries and [k] is one of 1 to 5; in
    every other case the digit key changes no state and has no effect. *)
Theorem digit_key_selects (st : State) (d : char) :
  is_ascii_digit d = true ->
  let k := digit_value d in
  let selects :=
    current_mode st = pinyin /\ k <= length (current_candidates st) /\ 1 <= k <= 5 in
  (selects ->
   exists output : str,
     nth_error (current_candidates st) (k - 1) = Some output /\
     on_press (KeyCode (Some d)) st =
     (RetNone,
      {| current_mode := unknown; input_buffer := []; raw_input_buffer := [];
         current_candidates := [];
         ctrl_pressed := ctrl_pressed st; shift_pressed := shift_pressed st |},
      [print (msg_select output);
       ui_queue_put {| visible := false; buffer := []; candidates := [] |}]))
  /\
  (~ selects -> on_press (KeyCode (Some d)) st = (RetNone, st, [])).
Proof.
  intros Hd k selects. rewrite (on_press_digit st d Hd). fold k.
  assert (Hiff : mode_eqb (current_mode st) pinyin && (1 <=? k) && (k <=? 5)
                 && (k <=? length (current_candidates st)) = true <-> selects).
  { unfold selects. rewrite !andb_true_iff, !Nat.leb_le.
    destruct (current_mode st); cbn; intuition congruence. }
  destruct (mode_eqb (current_mode st) pinyin && (1 <=? k) && (k <=? 5)
            && (k <=? length (current_candidates st))).
  - assert (Hs : selects) by (apply Hiff; reflexivity).
    split; [intros _ | intros Hn; contradiction].
    destruct Hs as (_ & Hlen & Hk).
    exists (nth (k - 1) (current_candidates st) []). split; [| reflexivity].
    apply nth_error_nth'. lia.
  - split; [intros Hs; apply Hiff in Hs; discriminate | reflexivity].
Qed.

(** ** Every key *)

Lemma press_digit_state (ch : option char) (st : State) :
  state_of (press_digit ch st) = st \/ state_of (press_digit ch st) = rest_state st.
Proof.
  unfold press_digit. destruct ch as [c|]; [| left; reflexivity].
  destruct (isdigit c && existsb (N.eqb c) (str_of "12345")); [| left; reflexivity].
  destruct st as [mode buf raw cands ctrl shift].
  cbv [bind read fall_through ret current_mode current_candidates].
  destruct (mode_eqb mode pinyin && truthy cands); [| left; reflexivity].
  destruct (_ <? _)%Z; [right | left]; reflexivity.
Qed.

(** The state [on_press] leaves is the state before with a modifier flag
    set, or switched by Ctrl+Shift, or one of the states of the lemmas
    above, or the state before. *)
Lemma on_press_state (key : Key) (st : State) :
  let st' := state_of (on_press key st) in
  st' = set_ctrl_pressed true st
  \/ st' = set_shift_pressed true st
  \/ st' = {| current_mode := switched (current_mode st);
              input_buffer := []; raw_input_buffer := []; current_candidates := [];
              ctrl_pressed := ctrl_pressed st; shift_pressed := true |}
  \/ (current_mode st = pinyin /\ input_buffer st <> [] /\ st' = after_backspace st)
  \/ (exists c : char, st' = after_letter c st)
  \/ st' = rest_state st
  \/ st' = st.
Proof.
  cbv zeta.
  destruct key as [ | | | | | | | | | | name | [c|] ].
  1-3: left; reflexivity.
  1-3: unfold on_press; run_blocks;
       destruct st as [mode buf raw cands [|] shift]; cbn;
       [ right; right; left; destruct mode; reflexivity
       | right; left; reflexivity ].
  - destruct (current_mode st) eqn:Hmode.
    + destruct (input_buffer st) as [|b buf] eqn:Hbuf.
      * rewrite on_press_backspace_ignored by (right; assumption).
        repeat right. reflexivity.
      * rewrite on_press_backspace by congruence.
        right; right; right; left. rewrite <- Hbuf. repeat split; congruence.
    + rewrite on_press_backspace_ignored by (left; congruence).
      repeat right. reflexivity.
    + rewrite on_press_backspace_ignored by (left; congruence).
      repeat right. reflexivity.
  - repeat right. reflexivity.
  - destruct (input_buffer st) as [|b buf] eqn:Hbuf.
    + rewrite on_press_commit_empty by (cbn; auto). repeat right. reflexivity.
    + rewrite on_press_commit by (cbn; auto; congruence).
      do 5 right. left. reflexivity.
  - destruct (input_buffer st) as [|b buf] eqn:Hbuf.
    + rewrite on_press_commit_empty by (cbn; auto). repeat right. reflexivity.
    + rewrite on_press_commit by (cbn; auto; congruence).
      do 5 right. left. reflexivity.
  - repeat right. reflexivity.
  - destruct (isalpha c) eqn:Hc.
    + rewrite on_press_letter by assumption.
      do 4 right. left. exists c. reflexivity.
    + rewrite on_press_not_letter by assumption.
      destruct (press_digit_state (Some c) st) as [H|H];
        unfold finish, bind, state_of in *;
        destruct (press_digit (Some c) st) as [[r st1] out]; cbn in *; subst st1.
      * repeat right. reflexivity.
      * do 5 right. left. reflexivity.
  - repeat right. reflexivity.
Qed.

Lemma on_release_state (key : Key) (st : State) :
  let st' := state_of (on_release key st) in
  st' = set_ctrl_pressed false st \/ st' = set_shift_pressed false st \/ st' = st.
Proof.
  cbv zeta. destruct key as [ | | | | | | | | | | name | [c|] ];
    cbv; auto.
Qed.

End Presses.

(* ===================================================================== *)
(** * Invariants of the reachable states *)
(* ===================================================================== *)

Section Invariants.
Context {U : UnicodeData} {P : Pinyin2Hanzi}.

Lemma consistent_initial : consistent initial_state.
Proof. split; [reflexivity | split; intros H; cbn in H; congruence]. Qed.

Lemma consistent_after_letter (c : char) (st : State) : consistent (after_letter c st).
Proof.
  unfold consistent, buffers_agree, mode_follows_buffer, candidates_need_pinyin,
    after_letter. cbn.
  split; [reflexivity | split].
  - intros _. reflexivity.
  - intros Hc. split.
    + destruct (mode_of_buffer (raw_input_buffer st ++ [c])); cbn in *; congruence.
    + destruct (raw_input_buffer st); discriminate.
Qed.

Lemma consistent_after_backspace (st : State) :
  buffers_agree st -> consistent (after_backspace st).
Proof.
  unfold consistent, buffers_agree, mode_follows_buffer, candidates_need_pinyin,
    after_backspace. cbn. intros ->.
  destruct (truthy (slice_to (raw_input_buffer st) (-1))) eqn:Hbuf.
  - apply truthy_true in Hbuf. split; [reflexivity | split].
    + intros _. reflexivity.
    + intros Hc. split; [| assumption].
      destruct (mode_of_buffer _); cbn in *; congruence.
  - apply truthy_false in Hbuf. rewrite Hbuf. cbn.
    split; [reflexivity | split; intros H; congruence].
Qed.

Lemma consistent_empty (mode : Mode) (ctrl shift : bool) :
  consistent {| current_mode := mode; input_buffer := []; raw_input_buffer := [];
                current_candidates := []; ctrl_pressed := ctrl;
                shift_pressed := shift |}.
Proof. split; [reflexivity | split; intros H; cbn in H; congruence]. Qed.

(** Each callback keeps the invariant. *)
Lemma on_press_consistent (key : Key) (st : State) :
  consistent st -> consistent (state_of (on_press key st)).
Proof.
  intros Hst.
  destruct (on_press_state key st)
    as [H|[H|[H|[(_ & _ & H)|[[c H]|[H|H]]]]]]; rewrite H.
  - exact Hst.
  - exact Hst.
  - apply consistent_empty.
  - apply consistent_after_backspace, Hst.
  - apply consistent_after_letter.
  - apply consistent_empty.
  - exact Hst.
Qed.

Lemma on_release_consistent (key : Key) (st : State) :
  consistent st -> consistent (state_of (on_release key st)).
Proof.
  intros Hst. destruct (on_release_state key st) as [H|[H|H]]; rewrite H; exact Hst.
Qed.

Lemma callback_consistent (ev : Event) (st : State) :
  consistent st -> consistent (state_of (callback ev st)).
Proof.
  destruct ev; [apply on_press_consistent | apply on_release_consistent].
Qed.

(** The listener keeps it, however many events it delivers. *)
Lemma listener_consistent (evs : list Event) :
  forall st : State, consistent st -> consistent (fst (listener evs st)).
Proof.
  induction evs as [|ev evs IH]; intros st Hst; [exact Hst|].
  cbn [listener].
  pose proof (callback_consistent ev st Hst) as Hstep.
  destruct (callback ev st) as [[r st1] out1]. cbn in Hstep.
  destruct r.
  - specialize (IH st1 Hstep). destruct (listener evs st1). exact IH.
  - exact Hstep.
Qed.

Lemma reachable_consistent (st : State) : reachable st -> consistent st.
Proof.
  intros [evs <-]. apply listener_consistent, consistent_initial.
Qed.

End Invariants.

(* ===================================================================== *)
(** * The candidate lookup *)
(* ===================================================================== *)

Lemma spec_chunks_step (s : str) (i : nat) :
  i + 2 <= length s ->
  spec_chunks (skipn i s) = slice s i (i + 2) :: spec_chunks (skipn (i + 2) s).
Proof.
  intros Hlen. unfold slice.
  replace (i + 2 - i) with 2 by lia.
  rewrite Nat.add_comm, <- skipn_skipn.
  assert (Hrest : 2 <= length (skipn i s)) by (rewrite length_skipn; lia).
  destruct (skipn i s) as [|a [|b rest]]; cbn in Hrest; try lia.
  reflexivity.
Qed.

Lemma spec_chunks_last (s : str) (i : nat) :
  i < length s -> ~ i + 2 <= length s ->
  spec_chunks (skipn i s) =
  [match nth_error s i with Some c => [c] | None => [] end].
Proof.
  intros Hlt Hle.
  assert (Hlen : length (skipn i s) = 1) by (rewrite length_skipn; lia).
  rewrite <- (Nat.add_0_r i) at 2. rewrite <- nth_error_skipn.
  destruct (skipn i s) as [|a [|b rest]]; cbn in Hlen; try lia.
  reflexivity.
Qed.

(** The loop appends the specification's chunks of the text from [i] on. *)
Lemma pinyin_list_loop_chunks (pinyin_str : str) (i : nat) (pinyin_list : list str) :
  pinyin_list_loop pinyin_str i pinyin_list =
  pinyin_list ++ spec_chunks (skipn i pinyin_str).
Proof.
  funelim (pinyin_list_loop pinyin_str i pinyin_list).
  - rewrite skipn_all2 by lia. cbn. rewrite app_nil_r. reflexivity.
  - match goal with IH : pinyin_list_loop _ _ _ = _ ++ _ |- _ => rewrite IH end.
    rewrite <- app_assoc. cbn [app].
    rewrite <- spec_chunks_step by assumption. reflexivity.
  - match goal with IH : pinyin_list_loop _ _ _ = _ ++ _ |- _ => rewrite IH end.
    rewrite <- app_assoc. cbn [app].
    rewrite (spec_chunks_last pinyin_str i) by assumption.
    rewrite skipn_all2 by lia. reflexivity.
Qed.

(** Induction two characters at a time. *)
Lemma str_pair_ind (Q : str -> Prop) :
  Q [] -> (forall a, Q [a]) -> (forall a b rest, Q rest -> Q (a :: b :: rest)) ->
  forall s, Q s.
Proof.
  intros Hnil Hone Hstep s.
  assert (H : Q s /\ forall a, Q (a :: s)); [| apply H].
  induction s as [|b s [IH1 IH2]]; split; auto.
Qed.

(** The chunks put together give the text back. *)
Lemma spec_chunks_concat (s : str) : concat (spec_chunks s) = s.
Proof.
  induction s as [| a | a b rest IH] using str_pair_ind; [reflexivity .. |].
  cbn. rewrite IH. reflexivity.
Qed.

(** The chunks are chunks of two characters, then one chunk holding the last
    character when the length is odd. *)
Lemma spec_chunks_shape (s : str) :
  exists pairs : list str,
    Forall (fun chunk => length chunk = 2) pairs /\
    length pairs = Nat.div2 (length s) /\
    spec_chunks s = pairs ++ (if Nat.odd (length s) then [[last s 0%N]] else []).
Proof.
  induction s as [| a | a b rest (pairs & Hall & Hlen & Heq)] using str_pair_ind.
  - exists []. repeat split. constructor.
  - exists []. repeat split. constructor.
  - exists ([a; b] :: pairs). split; [| split].
    + constructor; [reflexivity | exact Hall].
    + cbn [length Nat.div2] in *. rewrite Hlen. reflexivity.
    + cbn [spec_chunks length]. rewrite Heq.
      change (Nat.odd (S (S (length rest)))) with (Nat.odd (length rest)).
      destruct rest as [|c rest]; [reflexivity|].
      reflexivity.
Qed.

Section LookupFacts.
Context {P : Pinyin2Hanzi}.

Lemma slice_to_length {A : Type} (l : list A) (k : Z) :
  (0 <= k)%Z -> length (slice_to l k) <= Z.to_nat k.
Proof.
  intros Hk. unfold slice_to.
  destruct (Z.ltb_spec k 0); [lia|].
  rewrite length_firstn. lia.
Qed.

Lemma slice_to_firstn {A : Type} (l : list A) (k : Z) :
  (0 <= k)%Z -> slice_to l k = firstn (Z.to_nat k) l.
Proof.
  intros Hk. unfold slice_to. destruct (Z.ltb_spec k 0); [lia | reflexivity].
Qed.

(** C6. For every input string the lookup splits it into chunks of two
    characters greedily from the left, with a final chunk of one character
    when the length is odd ("nihao" gives "ni", "ha", "o"); for a non-empty
    string it hands this list of chunks to [dag], joins each returned path
    into one string and keeps the first [top_k] of them; what it returns has
    at most [top_k] entries, whatever the input. *)
Theorem lookup_chunks_and_truncates
  (pinyin_str : str) (top_k : Z) (dagparams : option DagParams) :
  (0 <= top_k)%Z ->
  pinyin_list_loop pinyin_str 0 [] = spec_chunks pinyin_str
  /\ (exists pairs : list str,
        Forall (fun chunk => length chunk = 2) pairs /\
        pinyin_list_loop pinyin_str 0 [] =
        pairs ++ (if Nat.odd (length pinyin_str)
                  then [[last pinyin_str 0%N]] else []))
  /\ concat (pinyin_list_loop pinyin_str 0 []) = pinyin_str
  /\ pinyin_list_loop (str_of "nihao") 0 [] = [str_of "ni"; str_of "ha"; str_of "o"]
  /\ (pinyin_str <> [] ->
      forall result : list Item,
        dag (params_or_default dagparams) (spec_chunks pinyin_str) top_k = Ok result ->
        simple_seg pinyin_str top_k dagparams =
        (Ok (firstn (Z.to_nat top_k) (map (fun item => concat (path item)) result)),
         []))
  /\ (forall (cands : list str) (out : list Effect),
        simple_seg pinyin_str top_k dagparams = (Ok cands, out) ->
        length cands <= Z.to_nat top_k)
  /\ length (fst (get_top_candidates pinyin_str top_k)) <= Z.to_nat top_k.
Proof.
  intros Hk.
  assert (Hloop : pinyin_list_loop pinyin_str 0 [] = spec_chunks pinyin_str)
    by (rewrite pinyin_list_loop_chunks; reflexivity).
  assert (Hseg : forall dp cands out,
             simple_seg pinyin_str top_k dp = (Ok cands, out) ->
             length cands <= Z.to_nat top_k).
  { intros dp cands out. unfold simple_seg.
    destruct (negb (truthy pinyin_str)).
    - intros [= <- _]. cbn. lia.
    - destruct (dag _ _ _) as [result|e].
      + intros [= <- _]. apply slice_to_length, Hk.
      + destruct (is_Exception e); [| discriminate].
        intros [= <- _]. cbn. lia. }
  repeat split.
  - exact Hloop.
  - rewrite Hloop. destruct (spec_chunks_shape pinyin_str) as (pairs & Hall & _ & Heq).
    exists pairs. split; assumption.
  - rewrite Hloop. apply spec_chunks_concat.
  - intros Hne result Hdag. unfold simple_seg.
    apply truthy_true in Hne. rewrite Hne. cbn [negb].
    rewrite Hloop, Hdag. unfold join. rewrite slice_to_firstn by exact Hk.
    reflexivity.
  - apply Hseg.
  - unfold get_top_candidates.
    destruct (simple_seg pinyin_str top_k (Some dag_params)) as [[cands|e] out] eqn:Hs.
    + cbn. apply (Hseg _ _ _ Hs).
    + cbn. lia.
Qed.

End LookupFacts.

(* ===================================================================== *)
(** * Lookup failures *)
(* ===================================================================== *)

Section Failures.
Context {U : UnicodeData} {P : Pinyin2Hanzi}.

(** What [get_top_candidates] returns is what it returns with a library
    whose [dag] gives no path instead of raising. *)
Lemma get_top_candidates_never_raising (pinyin_ : str) (top_k : Z) :
  fst (@get_top_candidates P pinyin_ top_k) =
  fst (@get_top_candidates (never_raising P) pinyin_ top_k).
Proof.
  unfold get_top_candidates, simple_seg, params_or_default, dag_params.
  cbn [never_raising dag params_truthy DefaultDagParams path].
  destruct (negb (truthy pinyin_)); [reflexivity|].
  destruct (dag _ _ _) as [result|e]; [reflexivity|].
  cbn [map]. rewrite slice_to_nil.
  destruct (is_Exception e); reflexivity.
Qed.

Lemma after_letter_never_raising (c : char) (st : State) :
  @after_letter U P c st = @after_letter U (never_raising P) c st.
Proof.
  unfold after_letter. rewrite get_top_candidates_never_raising. reflexivity.
Qed.

Lemma after_backspace_never_raising (st : State) :
  @after_backspace U P st = @after_backspace U (never_raising P) st.
Proof.
  unfold after_backspace. rewrite get_top_candidates_never_raising. reflexivity.
Qed.

Lemma on_press_never_raising (key : Key) (st : State) :
  value_of (@on_press U P key st) = value_of (@on_press U (never_raising P) key st)
  /\ state_of (@on_press U P key st) = state_of (@on_press U (never_raising P) key st).
Proof.
  destruct key as [ | | | | | | | | | | name | [c|] ]; try (split; reflexivity).
  - destruct (current_mode st) eqn:Hmode;
      [destruct (input_buffer st) as [|b buf] eqn:Hbuf | |].
    + rewrite !on_press_backspace_ignored by (right; assumption). split; reflexivity.
    + rewrite !on_press_backspace by congruence.
      split; [reflexivity | apply after_backspace_never_raising].
    + rewrite !on_press_backspace_ignored by (left; congruence). split; reflexivity.
    + rewrite !on_press_backspace_ignored by (left; congruence). split; reflexivity.
  - destruct (isalpha c) eqn:Hc.
    + rewrite !on_press_letter by assumption.
      split; [reflexivity | apply after_letter_never_raising].
    + rewrite !on_press_not_letter by assumption. split; reflexivity.
Qed.

Lemma listener_never_raising (evs : list Event) :
  forall st : State,
    fst (@listener U P evs st) = fst (@listener U (never_raising P) evs st).
Proof.
  induction evs as [|ev evs IH]; intros st; [reflexivity|].
  cbn [listener].
  assert (Hstep : value_of (@callback U P ev st)
                  = value_of (@callback U (never_raising P) ev st)
                  /\ state_of (@callback U P ev st)
                     = state_of (@callback U (never_raising P) ev st)).
  { destruct ev as [key|key]; [apply on_press_never_raising | split; reflexivity]. }
  destruct (@callback U P ev st) as [[r st1] out1].
  destruct (@callback U (never_raising P) ev st) as [[r' st1'] out1'].
  cbn in Hstep. destruct Hstep as [<- <-].
  destruct r; [| reflexivity].
  specialize (IH st1).
  destruct (@listener U P evs st1), (@listener U (never_raising P) evs st1).
  exact IH.
Qed.

(** C7. If [dag] raises inside the lookup, [get_top_candidates] returns the
    empty list and raises nothing; [simple_seg] itself turns every exception
    of class [Exception] into the empty list, printing it.  The callbacks
    return the same value and leave the same state as they would with a
    library that finds no path where this one fails: the failure shows in
    the state machine as an empty candidate list and in nothing else. *)
Theorem lookup_failure_gives_no_candidates (pinyin_ : str) (top_k : Z) (e : PyExc) :
  pinyin_ <> [] ->
  dag dag_params (pinyin_list_loop pinyin_ 0 []) top_k = Raise e ->
  get_top_candidates pinyin_ top_k =
    ([], if is_Exception e then [print (msg_lookup_error e)] else [])
  /\ (is_Exception e = true ->
      simple_seg pinyin_ top_k (Some dag_params) = (Ok [], [print (msg_lookup_error e)]))
  /\ (forall (key : Key) (st : State),
        value_of (on_press key st) = value_of (@on_press U (never_raising P) key st)
        /\ state_of (on_press key st) = state_of (@on_press U (never_raising P) key st))
  /\ (forall (evs : list Event) (st : State),
        fst (listener evs st) = fst (@listener U (never_raising P) evs st)).
Proof.
  intros Hne Hdag. apply truthy_true in Hne.
  assert (Hparams : params_or_default (Some dag_params) = dag_params).
  { unfold params_or_default. destruct (params_truthy dag_params); reflexivity. }
  assert (Hseg : simple_seg pinyin_ top_k (Some dag_params) =
                 if is_Exception e then (Ok [], [print (msg_lookup_error e)])
                 else (Raise e, [])).
  { unfold simple_seg. rewrite Hne, Hparams, Hdag. reflexivity. }
  repeat split.
  - unfold get_top_candidates. rewrite Hseg. destruct (is_Exception e); reflexivity.
  - intros He. rewrite Hseg, He. reflexivity.
  - apply on_press_never_raising.
  - apply on_press_never_raising.
  - intros evs st. apply listener_never_raising.
Qed.

End Failures.

(* ===================================================================== *)
(** * Properties of the reachable states *)
(* ===================================================================== *)

Section Reachable.
Context {U : UnicodeData} {P : Pinyin2Hanzi}.

(** C8. In every state reachable from the initial Unknown/empty state by key
    events, the candidate list is non-empty only if the mode is Pinyin and
    the buffer (either variable) is non-empty. *)
Theorem candidates_only_in_pinyin (st : State) :
  reachable st ->
  current_candidates st <> [] ->
  current_mode st = pinyin /\ raw_input_buffer st <> [] /\ input_buffer st <> [].
Proof.
  intros Hreach Hcands.
  destruct (reachable_consistent st Hreach) as (Hagree & _ & Hneed).
  destruct (Hneed Hcands) as [Hmode Hbuf].
  unfold buffers_agree in Hagree. rewrite <- Hagree. auto.
Qed.

(** C9. In every state reachable from the initial state by key events the
    variables [input_buffer] and [raw_input_buffer] are equal, and whatever
    event comes next, they are equal again after its callback. *)
Theorem buffers_stay_equal (st : State) :
  reachable st ->
  input_buffer st = raw_input_buffer st
  /\ forall ev : Event,
       input_buffer (state_of (callback ev st))
       = raw_input_buffer (state_of (callback ev st)).
Proof.
  intros Hreach. pose proof (reachable_consistent st Hreach) as Hst.
  split; [apply Hst|].
  intros ev. apply (callback_consistent ev st Hst).
Qed.

(** In a reachable state in Pinyin mode a non-empty buffer classifies as
    Pinyin. *)
Lemma reachable_pinyin_buffer (st : State) :
  consistent st -> current_mode st = pinyin -> input_buffer st <> [] ->
  is_pinyin_sequence_prefix (input_buffer st) = true.
Proof.
  intros (_ & Hfollows & _) Hmode Hbuf. specialize (Hfollows Hbuf).
  rewrite Hmode in Hfollows. unfold mode_of_buffer in Hfollows.
  destruct (is_pinyin_sequence_prefix (input_buffer st)); congruence.
Qed.

(** C10. In every reachable state with mode Pinyin and a non-empty buffer,
    Backspace drops the last character and never yields mode English: the
    mode is Pinyin if the shortened buffer is non-empty and Unknown if it is
    empty. *)
Theorem backspace_never_english (st : State) :
  reachable st ->
  current_mode st = pinyin ->
  raw_input_buffer st <> [] ->
  let st' := state_of (on_press Key_backspace st) in
  raw_input_buffer st' = removelast (raw_input_buffer st)
  /\ input_buffer st' = raw_input_buffer st'
  /\ current_mode st' <> english
  /\ (raw_input_buffer st' <> [] -> current_mode st' = pinyin)
  /\ (raw_input_buffer st' = [] -> current_mode st' = unknown).
Proof.
  intros Hreach Hmode Hraw. cbv zeta.
  pose proof (reachable_consistent st Hreach) as Hst.
  assert (Hagree : input_buffer st = raw_input_buffer st) by apply Hst.
  assert (Hbuf : input_buffer st <> []) by congruence.
  pose proof (reachable_pinyin_buffer st Hst Hmode Hbuf) as Hpin.
  rewrite on_press_backspace by assumption.
  unfold state_of, after_backspace. cbn [fst snd current_mode input_buffer raw_input_buffer].
  rewrite Hagree in *. rewrite !slice_to_minus_one.
  destruct (truthy (removelast (raw_input_buffer st))) eqn:Hrest.
  - apply truthy_true in Hrest.
    assert (Hkeep : is_pinyin_sequence_prefix (removelast (raw_input_buffer st)) = true).
    { apply (is_pinyin_sequence_prefix_init _ (last (raw_input_buffer st) 0%N) Hrest).
      rewrite <- app_removelast_last by assumption. exact Hpin. }
    unfold mode_of_buffer. rewrite Hkeep.
    repeat split; congruence.
  - apply truthy_false in Hrest. rewrite Hrest.
    repeat split; congruence.
Qed.

(** Typing a Latin letter and then pressing Backspace gives back mode and
    buffer exactly when the letter left the mode Pinyin and the state before
    had a non-empty buffer or was in mode Unknown. *)
Lemma letter_then_backspace_restores (st : State) (c : char) :
  reachable st ->
  is_latin_letter c = true ->
  let st1 := state_of (on_press (KeyCode (Some c)) st) in
  let st2 := state_of (on_press Key_backspace st1) in
  (current_mode st2 = current_mode st /\ raw_input_buffer st2 = raw_input_buffer st)
  <->
  (current_mode st1 = pinyin /\ (raw_input_buffer st <> [] \/ current_mode st = unknown)).
Proof.
  intros Hreach Hc. cbv zeta.
  pose proof (reachable_consistent st Hreach) as (Hagree & Hfollows & _).
  unfold buffers_agree, mode_follows_buffer in *.
  assert (Hst1 : state_of (on_press (KeyCode (Some c)) st) = after_letter c st)
    by (rewrite on_press_letter by (apply isalpha_latin, Hc); reflexivity).
  rewrite Hst1. clear Hst1.
  destruct (current_mode (after_letter c st)) eqn:Hmode1.
  - (* the letter leaves mode Pinyin: Backspace is handled *)
    rewrite on_press_backspace
      by (try assumption; cbn; destruct (raw_input_buffer st); discriminate).
    unfold state_of, after_backspace.
    cbn [fst snd current_mode input_buffer raw_input_buffer after_letter].
    rewrite !slice_to_minus_one_app.
    cbn [after_letter current_mode] in Hmode1. unfold mode_of_buffer in Hmode1.
    destruct (is_pinyin_sequence_prefix (raw_input_buffer st ++ [c])) eqn:Hpin;
      [| discriminate].
    destruct (raw_input_buffer st) as [|r raw] eqn:Hraw; cbn [truthy].
    + split.
      * intros [Hm _]. split; [reflexivity | right; congruence].
      * intros [_ [Hn|Hm]]; [congruence | split; congruence].
    + assert (Hne : r :: raw <> []) by discriminate.
      rewrite <- Hraw in Hpin.
      rewrite is_pinyin_sequence_prefix_snoc in Hpin.
      * rewrite Hagree in Hfollows. rewrite Hraw in Hpin.
        rewrite (Hfollows Hne). unfold mode_of_buffer. rewrite Hpin.
        split; [intros _; split; [reflexivity | left; exact Hne] | intros _; split; reflexivity].
      * congruence.
      * rewrite (lower_char_latin c Hc). cbn [forallb]. rewrite andb_true_r.
        apply isalpha_latin. unfold is_latin_letter.
        rewrite (ascii_lower_is_lower c Hc). apply orb_true_r.
  - (* the letter leaves mode English: Backspace is ignored *)
    rewrite on_press_backspace_ignored by (left; congruence).
    unfold state_of. cbn [fst snd after_letter raw_input_buffer].
    split.
    + intros [_ Hbuf]. exfalso.
      apply (f_equal (@length char)) in Hbuf. rewrite length_app in Hbuf.
      cbn in Hbuf. lia.
    + intros [Hm _]. discriminate.
  - (* a letter never leaves mode Unknown *)
    exfalso. cbn [after_letter current_mode] in Hmode1. unfold mode_of_buffer in Hmode1.
    destruct (is_pinyin_sequence_prefix _); discriminate.
Qed.

(** C4 (amended). For every reachable state and every Latin letter [c],
    appending [c] to RawBuffer by a letter key press and then pressing
    Backspace restores Mode and RawBuffer to their values before the append
    exactly when the mode after the append is Pinyin and the state before
    the append had a non-empty RawBuffer or Mode Unknown.  The mode after
    the append is the classifier's for the appended buffer; when the
    appended buffer classifies as English, Backspace is not handled (it
    changes no state and has no effect) and RawBuffer keeps [c]. *)
Theorem letter_then_backspace (st : State) (c : char) :
  reachable st ->
  is_latin_letter c = true ->
  let st1 := state_of (on_press (KeyCode (Some c)) st) in
  let st2 := state_of (on_press Key_backspace st1) in
  ((current_mode st2 = current_mode st /\ raw_input_buffer st2 = raw_input_buffer st)
   <->
   (current_mode st1 = pinyin
    /\ (raw_input_buffer st <> [] \/ current_mode st = unknown)))
  /\ current_mode st1 = mode_of_buffer (raw_input_buffer st ++ [c])
  /\ (mode_of_buffer (raw_input_buffer st ++ [c]) = english ->
      on_press Key_backspace st1 = (RetNone, st1, [])
      /\ raw_input_buffer st2 = raw_input_buffer st ++ [c]
      /\ input_buffer st2 = raw_input_buffer st ++ [c]
      /\ current_mode st2 = english).
Proof.
  intros Hreach Hc. cbv zeta.
  split; [exact (letter_then_backspace_restores st c Hreach Hc)|].
  assert (Hst1 : state_of (on_press (KeyCode (Some c)) st) = after_letter c st)
    by (rewrite on_press_letter by (apply isalpha_latin, Hc); reflexivity).
  rewrite Hst1. split; [reflexivity|].
  intros Henglish.
  assert (Hmode1 : current_mode (after_letter c st) = english) by exact Henglish.
  assert (Hignored : on_press Key_backspace (after_letter c st)
                     = (RetNone, after_letter c st, []))
    by (apply on_press_backspace_ignored; left; congruence).
  rewrite Hignored. unfold state_of. cbn [fst snd].
  repeat split. exact Hmode1.
Qed.

End Reachable.

(* ===================================================================== *)
(** * Further properties of the classifier and the lookup *)
(* ===================================================================== *)

Section ClassifierMore.
Context {U : UnicodeData}.

(** X1. A text that holds an ASCII character that is no letter (a digit, a
    blank, punctuation) is never a Pinyin prefix, whatever it starts with;
    nor is the empty text. *)
Theorem classifier_rejects_non_letters (text : str) (c : char) :
  In c text -> is_ascii c = true -> is_latin_letter c = false ->
  is_pinyin_sequence_prefix text = false /\ is_pinyin_sequence_prefix [] = false.
Proof.
  intros Hin Hascii Hletter. split; [| reflexivity].
  destruct text as [|c0 text]; [reflexivity|].
  rewrite is_pinyin_sequence_prefix_cons.
  destruct (forallb isalpha (lower (c0 :: text))) eqn:Hall; [| reflexivity].
  exfalso. rewrite forallb_forall in Hall.
  assert (Hc : isalpha c = true).
  { apply Hall. unfold lower. apply in_flat_map. exists c. split; [exact Hin|].
    unfold lower_char. rewrite Hascii. unfold ascii_lower.
    unfold is_latin_letter in Hletter. apply orb_false_iff in Hletter as [-> _].
    left. reflexivity. }
  unfold isalpha in Hc. rewrite Hascii in Hc. congruence.
Qed.

Lemma is_pinyin_sequence_prefix_firstn (text : str) (n : nat) :
  is_pinyin_sequence_prefix text = true -> 1 <= n ->
  is_pinyin_sequence_prefix (firstn n text) = true.
Proof.
  intros Htext Hn.
  destruct text as [|c0 text]; [discriminate|].
  destruct n as [|n]; [lia|]. cbn [firstn].
  rewrite is_pinyin_sequence_prefix_cons in *.
  apply andb_true_iff in Htext as [Hall Hfirst]. rewrite Hfirst, andb_true_r.
  rewrite <- (firstn_skipn n text), app_comm_cons, all_alpha_app in Hall.
  apply andb_true_iff in Hall as [Hall _]. exact Hall.
Qed.

(** X2. The classifier is closed under prefixes: every non-empty prefix of a
    text that is a Pinyin prefix is one too. *)
Theorem classifier_prefix_closed (text : str) (n : nat) :
  is_pinyin_sequence_prefix text = true -> 1 <= n ->
  is_pinyin_sequence_prefix (firstn n text) = true.
Proof. apply is_pinyin_sequence_prefix_firstn. Qed.

(** X3. Letters appended to a non-empty text never change how it
    classifies: the first character decides. *)
Theorem classifier_ignores_appended_letters (text letters : str) :
  text <> [] -> forallb is_latin_letter letters = true ->
  is_pinyin_sequence_prefix (text ++ letters) = is_pinyin_sequence_prefix text.
Proof.
  revert text. induction letters as [|c letters IH]; intros text Hne Hall.
  - rewrite app_nil_r. reflexivity.
  - cbn [forallb] in Hall. apply andb_true_iff in Hall as [Hc Hall].
    change (c :: letters) with ([c] ++ letters). rewrite app_assoc.
    rewrite IH; [| destruct text; discriminate | exact Hall].
    apply is_pinyin_sequence_prefix_snoc; [exact Hne|].
    rewrite (lower_char_latin c Hc). cbn [forallb]. rewrite andb_true_r.
    apply isalpha_latin. unfold is_latin_letter.
    rewrite (ascii_lower_is_lower c Hc). apply orb_true_r.
Qed.

End ClassifierMore.

Section LookupMore.
Context {P : Pinyin2Hanzi}.

(** X4. With a negative [top_k] the slice [candidates[:top_k]] counts from
    the end: [simple_seg] drops the last [-top_k] candidates and returns the
    others, so it can return more than [top_k] of them. *)
Theorem simple_seg_negative_top_k
  (pinyin_str : str) (top_k : Z) (dagparams : option DagParams) (result : list Item) :
  pinyin_str <> [] ->
  (top_k < 0)%Z ->
  dag (params_or_default dagparams) (pinyin_list_loop pinyin_str 0 []) top_k = Ok result ->
  simple_seg pinyin_str top_k dagparams =
  (Ok (firstn (length result - Z.to_nat (- top_k))
              (map (fun item => concat (path item)) result)), []).
Proof.
  intros Hne Hk Hdag. apply truthy_true in Hne.
  unfold simple_seg. rewrite Hne, Hdag. cbn [negb]. unfold join, slice_to.
  destruct (Z.ltb_spec top_k 0); [| lia].
  rewrite length_map. do 3 f_equal. lia.
Qed.

(** The lookup prints at most one line: the error it caught. *)
Lemma get_top_candidates_prints (pinyin_ : str) (top_k : Z) :
  snd (get_top_candidates pinyin_ top_k) = []
  \/ exists e : PyExc, snd (get_top_candidates pinyin_ top_k) = [print (msg_lookup_error e)].
Proof.
  unfold get_top_candidates, simple_seg.
  destruct (negb (truthy pinyin_)); [left; reflexivity|].
  destruct (dag _ _ _) as [result|e]; [left; reflexivity|].
  destruct (is_Exception e); [right; exists e; reflexivity | left; reflexivity].
Qed.

(** With [top_k = 5] it returns at most five candidates. *)
Lemma get_top_candidates_at_most_5 (pinyin_ : str) :
  length (fst (get_top_candidates pinyin_ 5)) <= 5.
Proof.
  unfold get_top_candidates, simple_seg.
  destruct (negb (truthy pinyin_)); [cbn; lia|].
  destruct (dag _ _ _) as [result|e].
  - cbn [fst]. unfold slice_to. cbn [Z.ltb Z.compare]. rewrite length_firstn.
    change (Z.to_nat 5) with 5. lia.
  - destruct (is_Exception e); cbn; lia.
Qed.

End LookupMore.

(* ===================================================================== *)
(** * Every outcome of a key press *)
(* ===================================================================== *)

Section Outcome.
Context {U : UnicodeData} {P : Pinyin2Hanzi}.

Lemma key_in_shift_keys (key : Key) :
  key_in key shift_keys = true -> key = Key_shift \/ key = Key_shift_l \/ key = Key_shift_r.
Proof. destruct key as [ | | | | | | | | | | name | [c|] ]; cbn; auto; discriminate. Qed.

Lemma key_in_ctrl_keys (key : Key) :
  key_in key ctrl_keys = true -> key = Key_ctrl \/ key = Key_ctrl_l \/ key = Key_ctrl_r.
Proof. destruct key as [ | | | | | | | | | | name | [c|] ]; cbn; auto; discriminate. Qed.

Lemma on_press_shift_alone (key : Key) (st : State) :
  key_in key shift_keys = true -> ctrl_pressed st = false ->
  on_press key st = (RetNone, set_shift_pressed true st, []).
Proof.
  intros Hkey Hctrl. destruct st as [mode buf raw cands ctrl shift].
  cbn in Hctrl. subst ctrl.
  destruct (key_in_shift_keys key Hkey) as [-> | [-> | ->]]; reflexivity.
Qed.

Lemma on_press_shift_with_ctrl (key : Key) (st : State) :
  key_in key shift_keys = true -> ctrl_pressed st = true ->
  on_press key st =
  (RetNone,
   {| current_mode := switched (current_mode st);
      input_buffer := []; raw_input_buffer := []; current_candidates := [];
      ctrl_pressed := true; shift_pressed := true |},
   [print (match current_mode st with
           | pinyin => msg_switch_english
           | _ => msg_switch_pinyin
           end);
    ui_queue_put {| visible := mode_eqb (switched (current_mode st)) pinyin;
                    buffer := []; candidates := [] |};
    update_tray_menu (switched (current_mode st));
    update_tray_icon_image (switched (current_mode st))]).
Proof.
  intros Hkey Hctrl. destruct st as [mode buf raw cands ctrl shift].
  cbn in Hctrl. subst ctrl.
  destruct (key_in_shift_keys key Hkey) as [-> | [-> | ->]]; destruct mode; reflexivity.
Qed.

Lemma in_12345_is_digit (c : char) :
  existsb (N.eqb c) (str_of "12345") = true ->
  is_ascii_digit c = true /\ 1 <= digit_value c <= 5.
Proof.
  intros H. apply existsb_eqb_In in H. cbn in H.
  repeat (destruct H as [H|H]; [subst c; cbv; repeat split; lia|]).
  contradiction.
Qed.

(** What [on_press] does, by cases: a Ctrl key, Shift without and with
    Ctrl, a Backspace that is handled, a letter, a commit, a selection,
    Escape, and everything else, which does nothing. *)
Lemma on_press_outcome (key : Key) (st : State) :
  (key_in key ctrl_keys = true
   /\ on_press key st = (RetNone, set_ctrl_pressed true st, []))
  \/ (key_in key shift_keys = true /\ ctrl_pressed st = false
      /\ on_press key st = (RetNone, set_shift_pressed true st, []))
  \/ (key_in key shift_keys = true /\ ctrl_pressed st = true
      /\ on_press key st =
         (RetNone,
          {| current_mode := switched (current_mode st);
             input_buffer := []; raw_input_buffer := []; current_candidates := [];
             ctrl_pressed := true; shift_pressed := true |},
          [print (match current_mode st with
                  | pinyin => msg_switch_english
                  | _ => msg_switch_pinyin
                  end);
           ui_queue_put {| visible := mode_eqb (switched (current_mode st)) pinyin;
                           buffer := []; candidates := [] |};
           update_tray_menu (switched (current_mode st));
           update_tray_icon_image (switched (current_mode st))]))
  \/ (key = Key_backspace /\ current_mode st = pinyin /\ input_buffer st <> []
      /\ on_press key st =
         (RetNone, after_backspace st,
          tray_updates pinyin (current_mode (after_backspace st))
          ++ ui_updates (current_mode (after_backspace st))
                        (input_buffer (after_backspace st))
          ++ [print (msg_backspace (input_buffer (after_backspace st))
                                   (current_mode (after_backspace st)))]))
  \/ (exists c : char,
        key = KeyCode (Some c) /\ isalpha c = true
        /\ on_press key st =
           (RetNone, after_letter c st,
            tray_updates (current_mode st) (current_mode (after_letter c st))
            ++ ui_updates (current_mode (after_letter c st)) (raw_input_buffer st ++ [c])
            ++ [print (msg_input (raw_input_buffer st ++ [c])
                                 (current_mode (after_letter c st))
                                 (current_candidates (after_letter c st)))]))
  \/ (In key [Key_space; Key_enter] /\ input_buffer st <> []
      /\ on_press key st =
         (RetNone, rest_state st,
          [print (msg_commit (committed (current_mode st) (current_candidates st)
                                        (input_buffer st)));
           ui_queue_put hide]))
  \/ (exists c : char,
        key = KeyCode (Some c) /\ isalpha c = false
        /\ current_mode st = pinyin /\ 1 <= digit_value c <= 5
        /\ digit_value c <= length (current_candidates st)
        /\ on_press key st =
           (RetNone, rest_state st,
            [print (msg_select (nth (digit_value c - 1) (current_candidates st) []));
             ui_queue_put hide]))
  \/ (key = Key_esc
      /\ on_press key st = (RetFalse, st, [print msg_esc_pressed; stop_event_set]))
  \/ (key <> Key_esc /\ on_press key st = (RetNone, st, [])).
Proof.
  destruct key as [ | | | | | | | | | | name | [c|] ].
  1-3: left; split; reflexivity.
  1-3: destruct (ctrl_pressed st) eqn:Hctrl;
       [ right; right; left; split; [reflexivity | split; [reflexivity|]];
         apply on_press_shift_with_ctrl; [reflexivity | exact Hctrl]
       | right; left; split; [reflexivity | split; [reflexivity|]];
         apply on_press_shift_alone; [reflexivity | exact Hctrl] ].
  - (* Backspace *)
    destruct (current_mode st) eqn:Hmode.
    + destruct (input_buffer st) as [|b buf] eqn:Hbuf.
      * do 8 right. split; [discriminate|].
        apply on_press_backspace_ignored. right. exact Hbuf.
      * do 3 right. left. rewrite <- Hbuf.
        assert (Hne : input_buffer st <> []) by congruence.
        repeat split; try assumption. apply on_press_backspace; assumption.
    + do 8 right. split; [discriminate|].
      apply on_press_backspace_ignored. left. congruence.
    + do 8 right. split; [discriminate|].
      apply on_press_backspace_ignored. left. congruence.
  - (* Escape *)
    do 7 right. left. split; reflexivity.
  - (* Space *)
    destruct (input_buffer st) as [|b buf] eqn:Hbuf.
    + do 8 right. split; [discriminate|].
      apply on_press_commit_empty; [cbn; auto | exact Hbuf].
    + do 5 right. left. rewrite <- Hbuf.
      assert (Hne : input_buffer st <> []) by congruence.
      repeat split; try assumption; [cbn; auto|].
      apply on_press_commit; [cbn; auto | exact Hne].
  - (* Enter *)
    destruct (input_buffer st) as [|b buf] eqn:Hbuf.
    + do 8 right. split; [discriminate|].
      apply on_press_commit_empty; [cbn; auto | exact Hbuf].
    + do 5 right. left. rewrite <- Hbuf.
      assert (Hne : input_buffer st <> []) by congruence.
      repeat split; try assumption; [cbn; auto|].
      apply on_press_commit; [cbn; auto | exact Hne].
  - (* any other member of Key *)
    do 8 right. split; [discriminate | reflexivity].
  - (* a character *)
    destruct (isalpha c) eqn:Hc.
    + do 4 right. left. exists c. repeat split; try assumption.
      apply on_press_letter. exact Hc.
    + destruct (existsb (N.eqb c) (str_of "12345")) eqn:Hin.
      * destruct (in_12345_is_digit c Hin) as [Hd Hrange].
        pose proof (on_press_digit st c Hd) as Hpress.
        destruct (mode_eqb (current_mode st) pinyin
                  && (1 <=? digit_value c) && (digit_value c <=? 5)
                  && (digit_value c <=? length (current_candidates st))) eqn:Hcond.
        -- do 6 right. left. exists c.
           rewrite !andb_true_iff, !Nat.leb_le in Hcond.
           destruct Hcond as [[[Hmode _] _] Hlen].
           destruct (current_mode st); try discriminate.
           repeat split; try assumption; lia.
        -- do 8 right. split; [discriminate | exact Hpress].
      * do 8 right. split; [discriminate|].
        rewrite on_press_not_letter by exact Hc.
        unfold finish, bind. rewrite press_digit_other by exact Hin. reflexivity.
  - (* a key code without a character *)
    do 8 right. split; [discriminate | reflexivity].
Qed.

End Outcome.

(* ===================================================================== *)
(** * Modifiers, Escape and the keys that do nothing *)
(* ===================================================================== *)

Section KeysMore.
Context {U : UnicodeData} {P : Pinyin2Hanzi}.

Lemma on_release_outcome (key : Key) (st : State) :
  (key_in key ctrl_keys = true
   /\ on_release key st = (RetNone, set_ctrl_pressed false st, []))
  \/ (key_in key shift_keys = true
      /\ on_release key st = (RetNone, set_shift_pressed false st, []))
  \/ (key = Key_esc
      /\ on_release key st = (RetFalse, st, [print msg_esc_released; stop_event_set]))
  \/ (key <> Key_esc /\ key_in key ctrl_keys = false /\ key_in key shift_keys = false
      /\ on_release key st = (RetNone, st, [])).
Proof.
  destruct key as [ | | | | | | | | | | name | [c|] ].
  1-3: left; split; reflexivity.
  1-3: right; left; split; reflexivity.
  2: right; right; left; split; reflexivity.
  all: right; right; right; repeat split; discriminate.
Qed.

(** X5. Releasing a key never touches the mode, the buffers or the
    candidates, puts nothing on the UI queue and tells the tray nothing: it
    clears the Ctrl flag for a Ctrl key, the Shift flag for a Shift key, and
    leaves the flags alone for every other key. *)
Theorem on_release_only_clears_flags (key : Key) (st : State) :
  let st' := state_of (on_release key st) in
  let out := effects_of (on_release key st) in
  current_mode st' = current_mode st
  /\ input_buffer st' = input_buffer st
  /\ raw_input_buffer st' = raw_input_buffer st
  /\ current_candidates st' = current_candidates st
  /\ ctrl_pressed st' = ctrl_pressed st && negb (key_in key ctrl_keys)
  /\ shift_pressed st' = shift_pressed st && negb (key_in key shift_keys)
  /\ last_ui_put None out = None
  /\ last_tray_menu None out = None
  /\ last_tray_icon None out = None.
Proof.
  cbv zeta.
  destruct key as [ | | | | | | | | | | name | [c|] ];
    cbn; rewrite ?andb_true_r, ?andb_false_r; repeat split.
Qed.

Lemma only_prints_no_stop (out : list Effect) :
  (forall e, In e out -> exists m, e = print m) -> sets_stop_event out = false.
Proof.
  intros Hall. unfold sets_stop_event.
  destruct (existsb _ out) eqn:Hex; [| reflexivity].
  apply existsb_exists in Hex as (e & Hin & He).
  destruct (Hall e Hin) as [m ->]. discriminate.
Qed.

Lemma tray_updates_no_stop (prev mode : Mode) :
  sets_stop_event (tray_updates prev mode) = false.
Proof. unfold tray_updates. destruct (_ && _); reflexivity. Qed.

Lemma ui_updates_no_stop (mode : Mode) (buf : str) :
  sets_stop_event (ui_updates mode buf) = false.
Proof.
  unfold ui_updates. destruct (mode_eqb mode pinyin); [| reflexivity].
  unfold sets_stop_event. rewrite existsb_app. cbn. rewrite orb_false_r.
  destruct (get_top_candidates_prints buf 5) as [->|[e ->]]; reflexivity.
Qed.

(** X6. A callback returns [False], and so stops the listener, exactly for
    Escape (pressed or released); it sets the stop event exactly then, and
    Escape changes nothing in the state. *)
Theorem only_escape_stops (ev : Event) (st : State) :
  (value_of (callback ev st) = RetFalse <-> is_escape ev = true)
  /\ sets_stop_event (effects_of (callback ev st)) = is_escape ev
  /\ (is_escape ev = true -> state_of (callback ev st) = st).
Proof.
  destruct ev as [key|key]; cbn [callback].
  - destruct (on_press_outcome key st)
      as [[Hk H]|[(Hk & _ & H)|[(Hk & _ & H)|[(Hk & _ & _ & H)|[(c & Hk & _ & H)
         |[(Hk & _ & H)|[(c & Hk & _ & _ & _ & _ & H)|[[Hk H]|[Hk H]]]]]]]]];
      rewrite H; unfold value_of, state_of, effects_of; cbn [fst snd].
    + destruct (key_in_ctrl_keys key Hk) as [-> | [-> | ->]];
        repeat split; try discriminate.
    + destruct (key_in_shift_keys key Hk) as [-> | [-> | ->]];
        repeat split; try discriminate.
    + destruct (key_in_shift_keys key Hk) as [-> | [-> | ->]];
        repeat split; try discriminate.
    + subst key. cbn [is_escape].
      unfold sets_stop_event. rewrite !existsb_app.
      fold (sets_stop_event (tray_updates pinyin (current_mode (after_backspace st)))).
      fold (sets_stop_event (ui_updates (current_mode (after_backspace st))
                                        (input_buffer (after_backspace st)))).
      rewrite tray_updates_no_stop, ui_updates_no_stop.
      repeat split; try discriminate.
    + subst key. cbn [is_escape].
      unfold sets_stop_event. rewrite !existsb_app.
      fold (sets_stop_event (tray_updates (current_mode st)
                                          (current_mode (after_letter c st)))).
      fold (sets_stop_event (ui_updates (current_mode (after_letter c st))
                                        (raw_input_buffer st ++ [c]))).
      rewrite tray_updates_no_stop, ui_updates_no_stop.
      repeat split; try discriminate.
    + destruct Hk as [<-|[<-|[]]]; repeat split; try discriminate.
    + subst key. repeat split; try discriminate.
    + subst key. repeat split.
    + destruct key as [ | | | | | | | | | | name | [c|] ];
        try congruence; repeat split; try discriminate.
  - destruct (on_release_outcome key st)
      as [[Hk H]|[[Hk H]|[[Hk H]|(Hk & _ & _ & H)]]];
      rewrite H; unfold value_of, state_of, effects_of; cbn [fst snd].
    + destruct (key_in_ctrl_keys key Hk) as [-> | [-> | ->]];
        repeat split; try discriminate.
    + destruct (key_in_shift_keys key Hk) as [-> | [-> | ->]];
        repeat split; try discriminate.
    + subst key. repeat split.
    + destruct key as [ | | | | | | | | | | name | [c|] ];
        try congruence; repeat split; try discriminate.
Qed.

(** X7. The listener delivers nothing after an Escape: whatever events
    follow it, the final state and the effects are those of the events up to
    and including the Escape, and the state is the one before it.  The stop
    event is set by a run exactly when the run holds an Escape. *)
Theorem listener_stops_at_escape (evs1 evs2 : list Event) (ev : Event) (st : State) :
  is_escape ev = true ->
  listener (evs1 ++ ev :: evs2) st = listener (evs1 ++ [ev]) st
  /\ fst (listener (evs1 ++ ev :: evs2) st) = fst (listener evs1 st)
  /\ forall evs : list Event,
       sets_stop_event (snd (listener evs st)) = existsb is_escape evs.
Proof.
  intros Hesc. split; [| split].
  - revert st. induction evs1 as [|e evs1 IH]; intros st.
    + cbn [app listener].
      destruct (only_escape_stops ev st) as [[_ Hret] _].
      specialize (Hret Hesc). unfold value_of in Hret.
      destruct (callback ev st) as [[r st1] out1]. cbn in Hret. subst r.
      reflexivity.
    + cbn [app listener]. destruct (callback e st) as [[[|] st1] out1];
        [rewrite IH |]; reflexivity.
  - revert st. induction evs1 as [|e evs1 IH]; intros st.
    + cbn [app listener].
      destruct (only_escape_stops ev st) as ([_ Hret] & _ & Hst).
      specialize (Hret Hesc). specialize (Hst Hesc).
      unfold value_of, state_of in *.
      destruct (callback ev st) as [[r st1] out1]. cbn in *. subst r. exact Hst.
    + cbn [app listener]. destruct (callback e st) as [[[|] st1] out1];
        [| reflexivity].
      specialize (IH st1).
      destruct (listener (evs1 ++ ev :: evs2) st1), (listener evs1 st1). exact IH.
  - intros evs. revert st. induction evs as [|e evs IH]; intros st; [reflexivity|].
    cbn [listener existsb].
    destruct (only_escape_stops e st) as (Hret & Hstop & _).
    unfold value_of, effects_of in *.
    destruct (callback e st) as [[r st1] out1]. cbn [fst snd] in *.
    destruct r.
    + specialize (IH st1). destruct (listener evs st1) as [st2 out2].
      cbn [snd] in *. unfold sets_stop_event in *.
      rewrite existsb_app, Hstop, IH. reflexivity.
    + cbn [snd]. rewrite Hstop.
      assert (Hev : is_escape e = true) by (apply Hret; reflexivity).
      rewrite Hev. reflexivity.
Qed.

(** X8. A key press never clears a modifier flag: after it, the Ctrl flag
    is set if it was set or the key is a Ctrl key, and the Shift flag is
    set if it was set or the key is a Shift key. *)
Theorem on_press_only_sets_flags (key : Key) (st : State) :
  ctrl_pressed (state_of (on_press key st)) = ctrl_pressed st || key_in key ctrl_keys
  /\ shift_pressed (state_of (on_press key st)) = shift_pressed st || key_in key shift_keys.
Proof.
  destruct (on_press_outcome key st)
    as [[Hk H]|[(Hk & Hc & H)|[(Hk & Hc & H)|[(Hk & _ & _ & H)|[(c & Hk & _ & H)
       |[(Hk & _ & H)|[(c & Hk & _ & _ & _ & _ & H)|[[Hk H]|[Hk H]]]]]]]]];
    rewrite H; unfold state_of; cbn [fst snd].
  - destruct (key_in_ctrl_keys key Hk) as [-> | [-> | ->]]; cbn;
      rewrite orb_true_r, orb_false_r; split; reflexivity.
  - destruct (key_in_shift_keys key Hk) as [-> | [-> | ->]]; cbn;
      rewrite orb_true_r, orb_false_r; split; reflexivity.
  - destruct (key_in_shift_keys key Hk) as [-> | [-> | ->]]; cbn;
      rewrite Hc, orb_true_r; split; reflexivity.
  - subst key. cbn. rewrite !orb_false_r. split; reflexivity.
  - subst key. cbn. rewrite !orb_false_r. split; reflexivity.
  - destruct Hk as [<-|[<-|[]]]; cbn; rewrite !orb_false_r; split; reflexivity.
  - subst key. cbn. rewrite !orb_false_r. split; reflexivity.
  - subst key. cbn. rewrite !orb_false_r. split; reflexivity.
  - destruct st as [mode buf raw cands ctrl shift].
    destruct key as [ | | | | | | | | | | name | [c|] ]; cbn;
      rewrite ?orb_false_r, ?orb_true_r; try (split; reflexivity);
      destruct ctrl; destruct mode; cbv in H; try (split; reflexivity);
      inversion H; subst; split; reflexivity.
Qed.

(** X9. Keys the callback has no case for do nothing at all: any other
    named key, a key code without a character, and a character that is
    neither a letter nor one of the digits 1 to 5 (0, 6 to 9, a blank,
    punctuation). *)
Theorem unhandled_keys_do_nothing (key : Key) (st : State) :
  (exists name : nat, key = Key_other name)
  \/ key = KeyCode None
  \/ (exists c : char,
        key = KeyCode (Some c) /\ isalpha c = false
        /\ existsb (N.eqb c) (str_of "12345") = false) ->
  on_press key st = (RetNone, st, []).
Proof.
  intros [[name ->]|[->|(c & -> & Hc & Hin)]]; [reflexivity | reflexivity |].
  rewrite on_press_not_letter by exact Hc.
  unfold finish, bind. rewrite press_digit_other by exact Hin. reflexivity.
Qed.

(** X10. The Ctrl flag does not count keys: releasing any Ctrl key clears
    it, also while another Ctrl key is still held, and a Shift press that
    follows switches nothing; it only sets the Shift flag. *)
Theorem shift_after_ctrl_release (ctrl_key shift_key : Key) (st : State) :
  In ctrl_key ctrl_keys -> In shift_key shift_keys ->
  on_press shift_key (state_of (on_release ctrl_key st)) =
  (RetNone,
   {| current_mode := current_mode st; input_buffer := input_buffer st;
      raw_input_buffer := raw_input_buffer st;
      current_candidates := current_candidates st;
      ctrl_pressed := false; shift_pressed := true |},
   []).
Proof.
  intros Hc Hs.
  destruct Hc as [<-|[<-|[<-|[]]]]; destruct Hs as [<-|[<-|[<-|[]]]]; reflexivity.
Qed.

(** X11. Ctrl+Shift twice: with Ctrl held, a second Shift press (as key
    repeat sends it) switches back, so Pinyin and English come back and
    Unknown ends in English; the buffers stay empty. *)
Theorem ctrl_shift_twice (key1 key2 : Key) (st : State) :
  ctrl_pressed st = true -> In key1 shift_keys -> In key2 shift_keys ->
  state_of (on_press key2 (state_of (on_press key1 st))) =
  {| current_mode := match current_mode st with
                     | unknown => english
                     | mode => mode
                     end;
     input_buffer := []; raw_input_buffer := []; current_candidates := [];
     ctrl_pressed := true; shift_pressed := true |}.
Proof.
  intros Hctrl H1 H2.
  rewrite (on_press_shift_with_ctrl key1 st);
    [| destruct H1 as [<-|[<-|[<-|[]]]]; reflexivity | exact Hctrl].
  unfold state_of at 2. cbn [fst snd].
  rewrite on_press_shift_with_ctrl;
    [| destruct H2 as [<-|[<-|[<-|[]]]]; reflexivity | reflexivity].
  unfold state_of. cbn. destruct (current_mode st); reflexivity.
Qed.

End KeysMore.

(* ===================================================================== *)
(** * More invariants of the reachable states *)
(* ===================================================================== *)

Section InvariantsMore.
Context {U : UnicodeData} {P : Pinyin2Hanzi}.

Lemma forallb_slice_to_minus_one (f : char -> bool) (l : str) :
  forallb f l = true -> forallb f (slice_to l (-1)) = true.
Proof.
  rewrite slice_to_minus_one.
  induction l as [|x l _] using rev_ind; [intros; reflexivity|].
  rewrite removelast_last, forallb_app. intros H.
  apply andb_true_iff in H as [H _]. exact H.
Qed.

Lemma on_press_keeps_fresh_alphabetic (key : Key) (st : State) :
  candidates_fresh st /\ buffer_alphabetic st ->
  candidates_fresh (state_of (on_press key st))
  /\ buffer_alphabetic (state_of (on_press key st)).
Proof.
  unfold candidates_fresh, buffer_alphabetic. intros [Hfresh Halpha].
  destruct (on_press_outcome key st)
    as [[Hk H]|[(Hk & Hc & H)|[(Hk & Hc & H)|[(Hk & _ & _ & H)|[(c & Hk & Hal & H)
       |[(Hk & _ & H)|[(c & Hk & _ & _ & _ & _ & H)|[[Hk H]|[Hk H]]]]]]]]];
    rewrite H; unfold state_of; cbn [fst snd].
  - split; assumption.
  - split; assumption.
  - cbn. split; [congruence | reflexivity].
  - unfold after_backspace.
    cbn [current_mode input_buffer raw_input_buffer current_candidates].
    split; [| apply forallb_slice_to_minus_one, Halpha].
    intros Hmode _. rewrite Hmode. reflexivity.
  - unfold after_letter.
    cbn [current_mode input_buffer raw_input_buffer current_candidates].
    split.
    + intros Hmode _. rewrite Hmode. reflexivity.
    + rewrite forallb_app, Halpha. cbn. rewrite Hal. reflexivity.
  - cbn. split; [congruence | reflexivity].
  - cbn. split; [congruence | reflexivity].
  - split; assumption.
  - split; assumption.
Qed.

Lemma callback_keeps_fresh_alphabetic (ev : Event) (st : State) :
  candidates_fresh st /\ buffer_alphabetic st ->
  candidates_fresh (state_of (callback ev st))
  /\ buffer_alphabetic (state_of (callback ev st)).
Proof.
  destruct ev as [key|key]; [apply on_press_keeps_fresh_alphabetic|].
  cbn [callback]. intros H.
  destruct (on_release_state key st) as [E|[E|E]]; rewrite E; exact H.
Qed.

Lemma reachable_fresh_alphabetic (st : State) :
  reachable st -> candidates_fresh st /\ buffer_alphabetic st.
Proof.
  intros [evs <-].
  assert (Hinit : candidates_fresh initial_state /\ buffer_alphabetic initial_state).
  { split; [intros H; discriminate | reflexivity]. }
  revert Hinit. generalize initial_state.
  induction evs as [|ev evs IH]; intros st Hst; [exact Hst|].
  cbn [listener].
  pose proof (callback_keeps_fresh_alphabetic ev st Hst) as Hstep.
  unfold state_of in Hstep.
  destruct (callback ev st) as [[[|] st1] out1]; cbn [fst snd] in *.
  - specialize (IH st1 Hstep). destruct (listener evs st1). exact IH.
  - exact Hstep.
Qed.

(** X12. In every reachable state in Pinyin mode with a non-empty buffer the
    candidate list is the lookup of the buffer as it is now, never that of
    an earlier buffer; and in every reachable state there are at most five
    candidates. *)
Theorem candidates_are_fresh (st : State) :
  reachable st ->
  (current_mode st = pinyin -> raw_input_buffer st <> [] ->
   current_candidates st = fst (get_top_candidates (raw_input_buffer st) 5))
  /\ length (current_candidates st) <= 5.
Proof.
  intros Hreach.
  destruct (reachable_fresh_alphabetic st Hreach) as [Hfresh _].
  destruct (reachable_consistent st Hreach) as (Hagree & _ & Hneed).
  unfold candidates_fresh, buffers_agree, candidates_need_pinyin in *.
  rewrite Hagree in *. split; [exact Hfresh|].
  destruct (current_candidates st) as [|c0 cands] eqn:Hc; [cbn; lia|].
  destruct Hneed as [Hmode Hbuf]; [discriminate|].
  rewrite (Hfresh Hmode Hbuf). apply get_top_candidates_at_most_5.
Qed.

(** X13. Every candidate can be selected: in a reachable state the
    candidate at index [i] is committed by the digit key [i + 1], which is
    one of the keys 1 to 5. *)
Theorem every_candidate_has_a_key (st : State) (i : nat) :
  reachable st ->
  i < length (current_candidates st) ->
  i < 5
  /\ on_press (KeyCode (Some (49 + N.of_nat i)%N)) st =
     (RetNone,
      {| current_mode := unknown; input_buffer := []; raw_input_buffer := [];
         current_candidates := [];
         ctrl_pressed := ctrl_pressed st; shift_pressed := shift_pressed st |},
      [print (msg_select (nth i (current_candidates st) []));
       ui_queue_put {| visible := false; buffer := []; candidates := [] |}]).
Proof.
  intros Hreach Hi.
  assert (H5 : length (current_candidates st) <= 5).
  { destruct (reachable_fresh_alphabetic st Hreach) as [Hfresh _].
    destruct (reachable_consistent st Hreach) as (_ & _ & Hneed).
    destruct Hneed as [Hmode Hbuf]; [destruct (current_candidates st); cbn in Hi; [lia | discriminate]|].
    rewrite (Hfresh Hmode Hbuf). apply get_top_candidates_at_most_5. }
  assert (Hmode : current_mode st = pinyin).
  { destruct (reachable_consistent st Hreach) as (_ & _ & Hneed).
    apply Hneed. destruct (current_candidates st); cbn in Hi; [lia | discriminate]. }
  split; [lia|].
  assert (Hd : is_ascii_digit (49 + N.of_nat i)%N = true).
  { unfold is_ascii_digit. apply andb_true_iff. split; apply N.leb_le; lia. }
  assert (Hv : digit_value (49 + N.of_nat i)%N = i + 1) by (unfold digit_value; lia).
  rewrite (on_press_digit st _ Hd), Hv, Hmode. cbn [mode_eqb andb].
  replace (1 <=? i + 1) with true by (symmetry; apply Nat.leb_le; lia).
  replace (i + 1 <=? 5) with true by (symmetry; apply Nat.leb_le; lia).
  replace (i + 1 <=? length (current_candidates st)) with true
    by (symmetry; apply Nat.leb_le; lia).
  cbn [andb]. replace (i + 1 - 1) with i by lia. reflexivity.
Qed.

(** X14. The buffer never holds anything but alphabetic characters: only
    the letter case appends to it. *)
Theorem buffer_holds_letters (st : State) :
  reachable st ->
  forallb isalpha (raw_input_buffer st) = true
  /\ forallb isalpha (input_buffer st) = true.
Proof.
  intros Hreach.
  destruct (reachable_fresh_alphabetic st Hreach) as [_ Halpha].
  destruct (reachable_consistent st Hreach) as (Hagree & _).
  unfold buffer_alphabetic, buffers_agree in *. rewrite Hagree. auto.
Qed.

(** X15. In every reachable state a non-empty buffer has the mode the
    classifier gives it, which is never Unknown; and in mode Unknown both
    buffers and the candidate list are empty. *)
Theorem mode_matches_buffer (st : State) :
  reachable st ->
  (raw_input_buffer st <> [] ->
   current_mode st = mode_of_buffer (raw_input_buffer st)
   /\ current_mode st <> unknown)
  /\ (current_mode st = unknown ->
      raw_input_buffer st = [] /\ input_buffer st = [] /\ current_candidates st = []).
Proof.
  intros Hreach.
  destruct (reachable_consistent st Hreach) as (Hagree & Hfollows & Hneed).
  unfold buffers_agree, mode_follows_buffer, candidates_need_pinyin in *.
  rewrite Hagree in *.
  assert (Hne : raw_input_buffer st <> [] ->
                current_mode st = mode_of_buffer (raw_input_buffer st)
                /\ current_mode st <> unknown).
  { intros Hbuf. specialize (Hfollows Hbuf). split; [exact Hfollows|].
    rewrite Hfollows. unfold mode_of_buffer.
    destruct (is_pinyin_sequence_prefix _); discriminate. }
  split; [exact Hne|].
  intros Hmode.
  assert (Hraw : raw_input_buffer st = []).
  { destruct (raw_input_buffer st) as [|c raw] eqn:E; [reflexivity|].
    destruct Hne as [_ Hn]; [discriminate | contradiction]. }
  repeat split; try assumption.
  destruct (current_candidates st) as [|c cands]; [reflexivity|].
  destruct Hneed as [Hm _]; [discriminate | congruence].
Qed.

End InvariantsMore.

(* ===================================================================== *)
(** * What the UI queue and the tray are told *)
(* ===================================================================== *)

Section Told.
Context {U : UnicodeData} {P : Pinyin2Hanzi}.

Lemma last_ui_put_app (before : option UIState) (a b : list Effect) :
  last_ui_put before (a ++ b) = last_ui_put (last_ui_put before a) b.
Proof. apply fold_left_app. Qed.

Lemma last_tray_menu_app (before : option Mode) (a b : list Effect) :
  last_tray_menu before (a ++ b) = last_tray_menu (last_tray_menu before a) b.
Proof. apply fold_left_app. Qed.

Lemma last_tray_icon_app (before : option Mode) (a b : list Effect) :
  last_tray_icon before (a ++ b) = last_tray_icon (last_tray_icon before a) b.
Proof. apply fold_left_app. Qed.

(** After mode and buffer are set, the last message shows them in full. *)
Lemma last_ui_put_ui_updates (before : option UIState) (mode : Mode) (buf : str) :
  last_ui_put before (ui_updates mode buf) =
  Some {| visible := mode_eqb mode pinyin; buffer := buf;
          candidates := if mode_eqb mode pinyin
                        then fst (get_top_candidates buf 5) else [] |}.
Proof.
  unfold ui_updates. destruct (mode_eqb mode pinyin); [| reflexivity].
  rewrite last_ui_put_app. reflexivity.
Qed.

Lemma last_tray_ui_updates (before : option Mode) (mode : Mode) (buf : str) :
  last_tray_menu before (ui_updates mode buf) = before
  /\ last_tray_icon before (ui_updates mode buf) = before.
Proof.
  unfold ui_updates. destruct (mode_eqb mode pinyin); [| split; reflexivity].
  rewrite last_tray_menu_app, last_tray_icon_app.
  destruct (get_top_candidates_prints buf 5) as [->|[e ->]]; split; reflexivity.
Qed.

Lemma last_ui_put_tray_updates (before : option UIState) (prev mode : Mode) :
  last_ui_put before (tray_updates prev mode) = before.
Proof. unfold tray_updates. destruct (_ && _); reflexivity. Qed.

Lemma callback_ui_shows (ev : Event) (st : State) (last : option UIState) :
  ui_shows st last ->
  ui_shows (state_of (callback ev st))
           (last_ui_put last (effects_of (callback ev st))).
Proof.
  intros Hlast. destruct ev as [key|key]; cbn [callback].
  - destruct (on_press_outcome key st)
      as [[Hk H]|[(Hk & Hc & H)|[(Hk & Hc & H)|[(Hk & _ & _ & H)|[(c & Hk & Hal & H)
         |[(Hk & _ & H)|[(c & Hk & _ & _ & _ & _ & H)|[[Hk H]|[Hk H]]]]]]]]];
      rewrite H; unfold state_of, effects_of; cbn [fst snd].
    + exact Hlast.
    + exact Hlast.
    + reflexivity.
    + rewrite !last_ui_put_app, last_ui_put_tray_updates, last_ui_put_ui_updates.
      cbn [last_ui_put fold_left ui_shows]. unfold display_of, after_backspace.
      cbn [current_mode input_buffer current_candidates]. reflexivity.
    + rewrite !last_ui_put_app, last_ui_put_tray_updates, last_ui_put_ui_updates.
      cbn [last_ui_put fold_left ui_shows]. unfold display_of, after_letter.
      cbn [current_mode input_buffer current_candidates]. reflexivity.
    + reflexivity.
    + reflexivity.
    + exact Hlast.
    + exact Hlast.
  - destruct (on_release_outcome key st)
      as [[Hk H]|[[Hk H]|[[Hk H]|(Hk & _ & _ & H)]]];
      rewrite H; unfold state_of, effects_of; cbn [fst snd]; exact Hlast.
Qed.

(** X16. The UI queue is kept in step with the state: after any run from
    the initial state, the last UIState put on the queue holds the current
    buffer and candidates and is visible exactly in Pinyin mode; if nothing
    was put yet, the mode is Unknown and buffer and candidates are empty. *)
Theorem ui_queue_in_step (evs : list Event) :
  let st := fst (listener evs initial_state) in
  let out := snd (listener evs initial_state) in
  match last_ui_put None out with
  | Some u =>
      u = {| visible := mode_eqb (current_mode st) pinyin;
             buffer := input_buffer st;
             candidates := current_candidates st |}
  | None =>
      current_mode st = unknown /\ input_buffer st = [] /\ current_candidates st = []
  end.
Proof.
  cbv zeta.
  assert (Hgen : forall (st : State) (last : option UIState),
             ui_shows st last ->
             ui_shows (fst (listener evs st)) (last_ui_put last (snd (listener evs st)))).
  { induction evs as [|ev evs IH]; intros st last Hlast; [exact Hlast|].
    cbn [listener].
    pose proof (callback_ui_shows ev st last Hlast) as Hstep.
    unfold state_of, effects_of in Hstep.
    destruct (callback ev st) as [[[|] st1] out1]; cbn [fst snd] in *.
    - specialize (IH st1 _ Hstep). destruct (listener evs st1) as [st2 out2].
      cbn [fst snd] in *. rewrite last_ui_put_app. exact IH.
    - exact Hstep. }
  apply (Hgen initial_state None). repeat split.
Qed.

Lemma tray_told_updates (prev mode : Mode) (menu icon : option Mode) :
  menu = icon -> menu <> Some unknown ->
  (prev <> unknown -> menu = Some prev) ->
  let menu' := last_tray_menu menu (tray_updates prev mode) in
  let icon' := last_tray_icon icon (tray_updates prev mode) in
  menu' = icon' /\ menu' <> Some unknown /\ (mode <> unknown -> menu' = Some mode).
Proof.
  intros Heq Hnot Hprev. cbv zeta. unfold tray_updates.
  destruct prev, mode; cbn; subst icon;
    repeat split; try assumption; try discriminate; try congruence;
    intros _; apply Hprev; discriminate.
Qed.

Lemma callback_tray_told (ev : Event) (st : State) (menu icon : option Mode) :
  tray_told st menu icon ->
  tray_told (state_of (callback ev st))
            (last_tray_menu menu (effects_of (callback ev st)))
            (last_tray_icon icon (effects_of (callback ev st))).
Proof.
  intros (Heq & Hnot & Hmode). unfold tray_told.
  destruct ev as [key|key]; cbn [callback].
  - destruct (on_press_outcome key st)
      as [[Hk H]|[(Hk & Hc & H)|[(Hk & Hc & H)|[(Hk & Hm & _ & H)|[(c & Hk & Hal & H)
         |[(Hk & _ & H)|[(c & Hk & _ & _ & _ & _ & H)|[[Hk H]|[Hk H]]]]]]]]];
      rewrite H; unfold state_of, effects_of; cbn [fst snd].
    + repeat split; assumption.
    + repeat split; assumption.
    + cbn. destruct (current_mode st); cbn; repeat split; discriminate.
    + rewrite !last_tray_menu_app, !last_tray_icon_app.
      destruct (tray_told_updates pinyin (current_mode (after_backspace st))
                  menu icon Heq Hnot) as (E1 & E2 & E3).
      { intros _. rewrite <- Hm. apply Hmode. congruence. }
      destruct (last_tray_ui_updates
                  (last_tray_menu menu
                     (tray_updates pinyin (current_mode (after_backspace st))))
                  (current_mode (after_backspace st))
                  (input_buffer (after_backspace st))) as [-> _].
      destruct (last_tray_ui_updates
                  (last_tray_icon icon
                     (tray_updates pinyin (current_mode (after_backspace st))))
                  (current_mode (after_backspace st))
                  (input_buffer (after_backspace st))) as [_ ->].
      cbn [last_tray_menu last_tray_icon fold_left]. repeat split; assumption.
    + rewrite !last_tray_menu_app, !last_tray_icon_app.
      destruct (tray_told_updates (current_mode st) (current_mode (after_letter c st))
                  menu icon Heq Hnot Hmode) as (E1 & E2 & E3).
      destruct (last_tray_ui_updates
                  (last_tray_menu menu
                     (tray_updates (current_mode st) (current_mode (after_letter c st))))
                  (current_mode (after_letter c st))
                  (raw_input_buffer st ++ [c])) as [-> _].
      destruct (last_tray_ui_updates
                  (last_tray_icon icon
                     (tray_updates (current_mode st) (current_mode (after_letter c st))))
                  (current_mode (after_letter c st))
                  (raw_input_buffer st ++ [c])) as [_ ->].
      cbn [last_tray_menu last_tray_icon fold_left]. repeat split; assumption.
    + cbn. repeat split; try assumption. congruence.
    + cbn. repeat split; try assumption. congruence.
    + repeat split; assumption.
    + repeat split; assumption.
  - destruct (on_release_outcome key st)
      as [[Hk H]|[[Hk H]|[[Hk H]|(Hk & _ & _ & H)]]];
      rewrite H; unfold state_of, effects_of; cbn [fst snd];
      repeat split; assumption.
Qed.

Lemma listener_tray_told (evs : list Event) :
  forall (st : State) (menu icon : option Mode),
    tray_told st menu icon ->
    tray_told (fst (listener evs st))
              (last_tray_menu menu (snd (listener evs st)))
              (last_tray_icon icon (snd (listener evs st))).
Proof.
  induction evs as [|ev evs IH]; intros st menu icon Htold; [exact Htold|].
  cbn [listener].
  pose proof (callback_tray_told ev st menu icon Htold) as Hstep.
  unfold state_of, effects_of in Hstep.
  destruct (callback ev st) as [[[|] st1] out1]; cbn [fst snd] in *.
  - specialize (IH st1 _ _ Hstep). destruct (listener evs st1) as [st2 out2].
    cbn [fst snd] in *. rewrite last_tray_menu_app, last_tray_icon_app. exact IH.
  - exact Hstep.
Qed.

(** X17. The tray is kept in step with the mode: after any run from the
    initial state, whenever the mode is Pinyin or English the last
    [update_tray_menu] call and the last [update_tray_icon_image] call were
    made with it; the two are always called with the same mode, and never
    with Unknown (so after a commit the tray keeps the mode of before). *)
Theorem tray_in_step (evs : list Event) :
  let st := fst (listener evs initial_state) in
  let out := snd (listener evs initial_state) in
  last_tray_menu None out = last_tray_icon None out
  /\ last_tray_menu None out <> Some unknown
  /\ (current_mode st <> unknown -> last_tray_menu None out = Some (current_mode st)).
Proof.
  cbv zeta. apply (listener_tray_told evs initial_state None None).
  repeat split; [discriminate | intros H; contradiction H; reflexivity].
Qed.

End Told.

(* ===================================================================== *)
(** * The tray menu *)
(* ===================================================================== *)

Section TrayMenu.
Context {U : UnicodeData} {P : Pinyin2Hanzi}.

(** Replaying the calls of a run on the globals [setup_tray] left gives the
    menu of the last call, or the menu of the setup if there was none. *)
Lemma replay_tray_menu_last (out : list Effect) :
  forall last : option Mode,
    replay_tray_menu out
      match last with
      | Some m => run_update_tray_menu m tray_after_setup
      | None => tray_after_setup
      end =
    match last_tray_menu last out with
    | Some m => run_update_tray_menu m tray_after_setup
    | None => tray_after_setup
    end.
Proof.
  induction out as [|e out IH]; intros last; [reflexivity|].
  unfold replay_tray_menu, last_tray_menu in *. cbn [fold_left].
  destruct e as [m | u | mode | mode | ]; try apply IH.
  rewrite <- (IH (Some mode)). f_equal.
  destruct last as [m|]; reflexivity.
Qed.

(** X18. With the tray icon set up, the first line of the tray menu names
    the current mode whenever that is Pinyin or English, the icon's menu and
    the global [tray_menu] are the same menu of four entries, and the line
    for the Unknown mode is shown only as long as the tray was never told a
    mode: the callbacks never put it back. *)
Theorem tray_menu_names_mode (evs : list Event) :
  let st := fst (listener evs initial_state) in
  let out := snd (listener evs initial_state) in
  let tray := replay_tray_menu out tray_after_setup in
  tray_icon tray = tray_menu tray
  /\ (exists menu, tray_menu tray = Some menu /\ length menu = 4)
  /\ (current_mode st = pinyin ->
      status_line (tray_icon tray) = Some (text_current_mode ++ text_pinyin_mode))
  /\ (current_mode st = english ->
      status_line (tray_icon tray) = Some (text_current_mode ++ text_english_mode))
  /\ (status_line (tray_icon tray) = Some (text_current_mode ++ text_unknown_mode) ->
      last_tray_menu None out = None).
Proof.
  cbv zeta.
  pose proof (replay_tray_menu_last (snd (listener evs initial_state)) None) as Hreplay.
  cbv beta iota in Hreplay. rewrite Hreplay.
  destruct (listener_tray_told evs initial_state None None) as (_ & Hnot & Hmode).
  { repeat split; [discriminate | intros H; contradiction H; reflexivity]. }
  destruct (last_tray_menu None (snd (listener evs initial_state))) as [[ | | ]|] eqn:Hlast.
  - repeat split; try (eexists; split; reflexivity).
    + intros Hm. rewrite Hm in Hmode. specialize (Hmode ltac:(discriminate)). discriminate.
    + intros H. discriminate.
  - repeat split; try (eexists; split; reflexivity).
    + intros Hm. rewrite Hm in Hmode. specialize (Hmode ltac:(discriminate)). discriminate.
    + intros H. discriminate.
  - contradiction Hnot. reflexivity.
  - repeat split; try (eexists; split; reflexivity).
    + intros Hm. rewrite Hm in Hmode. specialize (Hmode ltac:(discriminate)). discriminate.
    + intros Hm. rewrite Hm in Hmode. specialize (Hmode ltac:(discriminate)). discriminate.
Qed.

End TrayMenu.

(* ===================================================================== *)
(** * Typing, erasing and committing a word *)
(* ===================================================================== *)

Section Words.
Context {U : UnicodeData} {P : Pinyin2Hanzi}.

(** The state the listener reaches when a text is typed. *)
Lemma listener_typing (text : str) :
  forall st : State,
    text <> [] -> forallb isalpha text = true ->
    fst (listener (typing text) st) =
    {| current_mode := mode_of_buffer (raw_input_buffer st ++ text);
       input_buffer := raw_input_buffer st ++ text;
       raw_input_buffer := raw_input_buffer st ++ text;
       current_candidates :=
         if mode_eqb (mode_of_buffer (raw_input_buffer st ++ text)) pinyin
         then fst (get_top_candidates (raw_input_buffer st ++ text) 5) else [];
       ctrl_pressed := ctrl_pressed st; shift_pressed := shift_pressed st |}.
Proof.
  induction text as [|c text IH]; intros st Hne Hall; [congruence|].
  cbn [forallb] in Hall. apply andb_true_iff in Hall as [Hc Hall].
  cbn [typing flat_map app listener callback].
  rewrite (on_press_letter c st Hc).
  change (on_release (KeyCode (Some c)) (after_letter c st))
    with (RetNone, after_letter c st, @nil Effect).
  cbv iota beta.
  destruct text as [|c' text].
  - reflexivity.
  - fold (typing (c' :: text)).
    specialize (IH (after_letter c st) ltac:(discriminate) Hall).
    destruct (listener (typing (c' :: text)) (after_letter c st)) as [st2 out2].
    cbn [fst] in *. rewrite IH. cbn [after_letter raw_input_buffer ctrl_pressed shift_pressed].
    rewrite <- !app_assoc. reflexivity.
Qed.

(** X19. Typing a non-empty text of alphabetic characters, key by key,
    appends it to the buffer in order; the mode becomes the one the
    classifier gives the whole buffer, the candidates are those of the whole
    buffer in Pinyin mode and none in English mode, and the modifier flags
    are untouched. *)
Theorem typing_appends (text : str) (st : State) :
  text <> [] -> forallb isalpha text = true ->
  let st' := fst (listener (typing text) st) in
  raw_input_buffer st' = raw_input_buffer st ++ text
  /\ input_buffer st' = raw_input_buffer st ++ text
  /\ current_mode st' = mode_of_buffer (raw_input_buffer st ++ text)
  /\ current_candidates st' =
     (if mode_eqb (current_mode st') pinyin
      then fst (get_top_candidates (raw_input_buffer st ++ text) 5) else [])
  /\ ctrl_pressed st' = ctrl_pressed st /\ shift_pressed st' = shift_pressed st.
Proof.
  intros Hne Hall. cbv zeta. rewrite (listener_typing text st Hne Hall).
  repeat split.
Qed.

(** X20. What you type is what Enter commits, unless a candidate takes its
    place: after a non-empty word of Latin letters is typed into an empty
    buffer, Enter (or Space) commits the word itself if its first letter is
    outside the two Pinyin letter sets or the lookup has no candidate, and
    the first candidate of the word otherwise; the state is at rest again. *)
Theorem typed_word_is_committed (word : str) (key : Key) (st : State) :
  raw_input_buffer st = [] ->
  word <> [] -> forallb is_latin_letter word = true ->
  In key [Key_space; Key_enter] ->
  exists output : str,
    on_press key (fst (listener (typing word) st)) =
    (RetNone,
     {| current_mode := unknown; input_buffer := []; raw_input_buffer := [];
        current_candidates := [];
        ctrl_pressed := ctrl_pressed st; shift_pressed := shift_pressed st |},
     [print (msg_commit output);
      ui_queue_put {| visible := false; buffer := []; candidates := [] |}])
    /\ (in_pinyin_sets (ascii_lower (hd 0%N word)) ->
        output = match fst (get_top_candidates word 5) with
                 | first :: _ => first
                 | [] => word
                 end)
    /\ (~ in_pinyin_sets (ascii_lower (hd 0%N word)) -> output = word).
Proof.
  intros Hraw Hne Hlatin Hkey.
  assert (Halpha : forallb isalpha word = true).
  { rewrite forallb_forall in *. intros c Hc. apply isalpha_latin, Hlatin, Hc. }
  rewrite (listener_typing word st Hne Halpha), Hraw. cbn [app].
  destruct word as [|c word]; [congruence|]. cbn [hd].
  pose proof (is_pinyin_latin c word Hlatin) as Hpin.
  rewrite on_press_commit; [| exact Hkey | discriminate].
  unfold rest_state, hide, committed.
  cbn [current_mode input_buffer current_candidates ctrl_pressed shift_pressed].
  unfold mode_of_buffer.
  destruct (is_pinyin_sequence_prefix (c :: word)) eqn:Hp; cbn [mode_eqb].
  - eexists. split; [reflexivity|]. split; [reflexivity|].
    intros Hn. exfalso. apply Hn, Hpin. reflexivity.
  - eexists. split; [reflexivity|]. split; [| reflexivity].
    intros Hin. apply Hpin in Hin. discriminate.
Qed.

Lemma listener_backspaces_ignored (n : nat) (st : State) :
  current_mode st <> pinyin \/ input_buffer st = [] ->
  fst (listener (repeat (Press Key_backspace) n) st) = st.
Proof.
  intros H. induction n as [|n IH]; [reflexivity|].
  cbn [repeat listener callback]. rewrite (on_press_backspace_ignored st H).
  destruct (listener (repeat (Press Key_backspace) n) st). exact IH.
Qed.

Lemma listener_backspaces (n : nat) :
  forall st : State,
    consistent st -> current_mode st = pinyin -> raw_input_buffer st <> [] ->
    let st' := fst (listener (repeat (Press Key_backspace) n) st) in
    raw_input_buffer st' = firstn (length (raw_input_buffer st) - n) (raw_input_buffer st)
    /\ input_buffer st' = raw_input_buffer st'
    /\ current_mode st' = (if n <? length (raw_input_buffer st) then pinyin else unknown).
Proof.
  induction n as [|n IH]; intros st Hst Hmode Hraw; cbv zeta.
  - cbn [repeat listener fst]. rewrite Nat.sub_0_r, firstn_all.
    destruct Hst as (Hagree & _). unfold buffers_agree in Hagree.
    destruct (raw_input_buffer st); [congruence|]. cbn. auto.
  - assert (Hagree : input_buffer st = raw_input_buffer st) by apply Hst.
    assert (Hbuf : input_buffer st <> []) by congruence.
    pose proof (reachable_pinyin_buffer st Hst Hmode Hbuf) as Hpin.
    pose proof (on_press_consistent Key_backspace st Hst) as Hnext.
    cbn [repeat listener callback].
    rewrite (on_press_backspace st Hmode Hbuf) in *.
    unfold state_of in Hnext. cbn [fst snd] in Hnext.
    assert (Hraw' : raw_input_buffer (after_backspace st)
                    = firstn (length (raw_input_buffer st) - 1) (raw_input_buffer st)).
    { cbn. rewrite slice_to_minus_one, removelast_firstn_len.
      f_equal. lia. }
    assert (Hin' : input_buffer (after_backspace st)
                   = raw_input_buffer (after_backspace st)) by apply Hnext.
    destruct (Nat.eq_dec (length (raw_input_buffer st)) 1) as [Hone|Hmany].
    + (* the last character goes: the rest is ignored *)
      assert (Hempty : input_buffer (after_backspace st) = []).
      { rewrite Hin', Hraw', Hone. reflexivity. }
      pose proof (listener_backspaces_ignored n (after_backspace st)
                    (or_intror Hempty)) as Hign.
      destruct (listener (repeat (Press Key_backspace) n) (after_backspace st))
        as [st2 out2]. cbn [fst] in *. subst st2.
      assert (Hslice : slice_to (input_buffer st) (-1) = []) by exact Hempty.
      rewrite Hin' in Hempty.
      split; [| split].
      * rewrite Hempty, Hone. replace (1 - S n) with 0 by lia. reflexivity.
      * exact Hin'.
      * rewrite Hone. replace (S n <? 1) with false
          by (symmetry; apply Nat.ltb_ge; lia).
        unfold after_backspace. cbn [current_mode].
        rewrite Hslice. reflexivity.
    + (* characters are left: the mode stays Pinyin *)
      assert (Hlen : 2 <= length (raw_input_buffer st)).
      { destruct (raw_input_buffer st); [congruence | cbn in *; lia]. }
      assert (Hne' : raw_input_buffer (after_backspace st) <> []).
      { rewrite Hraw'. intros E. apply (f_equal (@length char)) in E.
        rewrite length_firstn in E. cbn in E. lia. }
      assert (Hmode' : current_mode (after_backspace st) = pinyin).
      { destruct Hnext as (_ & Hfollows & _).
        unfold mode_follows_buffer in Hfollows. rewrite Hin' in Hfollows.
        rewrite (Hfollows Hne'). unfold mode_of_buffer.
        rewrite Hraw'.
        rewrite (is_pinyin_sequence_prefix_firstn (raw_input_buffer st)
                   (length (raw_input_buffer st) - 1)); [reflexivity | | lia].
        rewrite <- Hagree. exact Hpin. }
      specialize (IH (after_backspace st) Hnext Hmode' Hne'). cbv zeta in IH.
      destruct (listener (repeat (Press Key_backspace) n) (after_backspace st))
        as [st2 out2]. cbn [fst] in *.
      destruct IH as (IH1 & IH2 & IH3).
      split; [| split].
      * rewrite IH1, Hraw', length_firstn, firstn_firstn. f_equal. lia.
      * exact IH2.
      * rewrite IH3, Hraw', length_firstn.
        destruct (Nat.ltb_spec n (Nat.min (length (raw_input_buffer st) - 1)
                                          (length (raw_input_buffer st))));
          destruct (Nat.ltb_spec (S n) (length (raw_input_buffer st)));
          try reflexivity; lia.
Qed.

(** X21. Backspace pressed [n] times in a reachable state in Pinyin mode
    with a non-empty buffer leaves the buffer without its last [n]
    characters (empty if it had no more than [n]); the mode stays Pinyin as
    long as a character is left and is Unknown once the buffer is empty,
    where further Backspaces do nothing. *)
Theorem backspaces_erase (n : nat) (st : State) :
  reachable st -> current_mode st = pinyin -> raw_input_buffer st <> [] ->
  let st' := fst (listener (repeat (Press Key_backspace) n) st) in
  raw_input_buffer st' = firstn (length (raw_input_buffer st) - n) (raw_input_buffer st)
  /\ input_buffer st' = raw_input_buffer st'
  /\ current_mode st' = (if n <? length (raw_input_buffer st) then pinyin else unknown).
Proof.
  intros Hreach. apply listener_backspaces, reachable_consistent, Hreach.
Qed.

(** X22. The first letter decides: in a reachable state with a non-empty
    buffer, typing one more Latin letter never changes the mode, and the
    tray is not told anything. *)
Theorem more_letters_keep_mode (c : char) (st : State) :
  reachable st -> raw_input_buffer st <> [] -> is_latin_letter c = true ->
  current_mode (state_of (on_press (KeyCode (Some c)) st)) = current_mode st
  /\ last_tray_menu None (effects_of (on_press (KeyCode (Some c)) st)) = None
  /\ last_tray_icon None (effects_of (on_press (KeyCode (Some c)) st)) = None.
Proof.
  intros Hreach Hraw Hc.
  destruct (reachable_consistent st Hreach) as (Hagree & Hfollows & _).
  unfold buffers_agree, mode_follows_buffer in *. rewrite Hagree in Hfollows.
  rewrite (on_press_letter c st (isalpha_latin c Hc)).
  unfold state_of, effects_of. cbn [fst snd].
  assert (Hmode : current_mode (after_letter c st) = current_mode st).
  { cbn. unfold mode_of_buffer.
    rewrite is_pinyin_sequence_prefix_snoc; [symmetry; apply (Hfollows Hraw) | exact Hraw |].
    rewrite (lower_char_latin c Hc). cbn [forallb]. rewrite andb_true_r.
    apply isalpha_latin. unfold is_latin_letter.
    rewrite (ascii_lower_is_lower c Hc). apply orb_true_r. }
  split; [exact Hmode|].
  rewrite !last_tray_menu_app, !last_tray_icon_app, Hmode.
  assert (Hnone : tray_updates (current_mode st) (current_mode st) = []).
  { unfold tray_updates. destruct (current_mode st); reflexivity. }
  rewrite Hnone. cbn [last_tray_menu last_tray_icon fold_left].
  destruct (last_tray_ui_updates None (current_mode st) (raw_input_buffer st ++ [c]))
    as [E1 E2].
  unfold last_tray_menu, last_tray_icon in *. rewrite E1, E2. split; reflexivity.
Qed.

End Words.

(* ===================================================================== *)
(** * Runs on the concrete libraries *)
(* ===================================================================== *)

Section Runs.
#[local] Existing Instance latin1_tables.
#[local] Existing Instance toy_dag.

Example state_ni_value :
  state_ni =
  {| current_mode := pinyin; input_buffer := str_of "ni"; raw_input_buffer := str_of "ni";
     current_candidates := [[20320%N]; [23612%N]; [21602%N]; [25311%N]; [27877%N]];
     ctrl_pressed := false; shift_pressed := false |}.
Proof. reflexivity. Qed.

Lemma classifier_first_letter_witness :
  let S := str_of "Nihao" in
  let first := ascii_lower (hd 0%N S) in
  (is_pinyin_sequence_prefix S = true <-> in_pinyin_sets first) /\
  (mode_of_buffer S = pinyin <-> in_pinyin_sets first) /\
  (mode_of_buffer S = english <-> ~ in_pinyin_sets first) /\
  (forall T : str,
      T <> [] -> forallb is_latin_letter T = true ->
      ascii_lower (hd 0%N T) = first ->
      is_pinyin_sequence_prefix T = is_pinyin_sequence_prefix S /\
      mode_of_buffer T = mode_of_buffer S).
Proof.
  apply (classifier_first_letter (str_of "Nihao")).
  - discriminate.
  - reflexivity.
Defined.

(** Scenario B: "xyz" classifies as Pinyin by its first letter; the toy
    library has no candidate for it, and Enter commits "xyz" itself. *)
Example scenario_xyz :
  let st := fst (listener [Press (key_of "x"); Press (key_of "y"); Press (key_of "z")]
                          initial_state) in
  current_mode st = pinyin
  /\ raw_input_buffer st = str_of "xyz"
  /\ current_candidates st = []
  /\ on_press Key_enter st =
     (RetNone, initial_state,
      [print (msg_commit (str_of "xyz"));
       ui_queue_put {| visible := false; buffer := []; candidates := [] |}]).
Proof. repeat split. Qed.

(** Scenario D: "pin" typed, then Backspace three times. *)
Example scenario_pin :
  let typed := [Press (key_of "p"); Press (key_of "i"); Press (key_of "n")] in
  let after n := fst (listener (typed ++ repeat (Press Key_backspace) n) initial_state) in
  (raw_input_buffer (after 1), current_mode (after 1)) = (str_of "pi", pinyin)
  /\ (raw_input_buffer (after 2), current_mode (after 2)) = (str_of "p", pinyin)
  /\ (raw_input_buffer (after 3), current_mode (after 3)) = ([], unknown).
Proof. repeat split. Qed.

(** Escape stops the listener: what is typed after it changes nothing. *)
Example escape_stops :
  listener [Press (key_of "n"); Press Key_esc; Press (key_of "i")] initial_state =
  listener [Press (key_of "n"); Press Key_esc] initial_state.
Proof. reflexivity. Qed.

(** Scenario C: "ni" typed, Ctrl held, Shift pressed. *)
Lemma ctrl_shift_switches_witness :
  on_press Key_shift_l (set_ctrl_pressed true state_ni) =
  (RetNone,
   {| current_mode := english; input_buffer := []; raw_input_buffer := [];
      current_candidates := []; ctrl_pressed := true; shift_pressed := true |},
   [print msg_switch_english;
    ui_queue_put {| visible := false; buffer := []; candidates := [] |};
    update_tray_menu english; update_tray_icon_image english]).
Proof.
  apply (ctrl_shift_switches (set_ctrl_pressed true state_ni) Key_shift_l).
  - reflexivity.
  - simpl. auto.
Defined.

(** C1 as stated fails: from the initial state, with Ctrl held, Shift
    switches to Pinyin and the UIState put on the queue has
    [visible = True]; no hide message is sent. *)
Lemma ctrl_shift_counterexample :
  let st := fst (listener [Press Key_ctrl_l] initial_state) in
  ctrl_pressed st = true
  /\ current_mode st = unknown
  /\ effects_of (on_press Key_shift_l st) =
     [print msg_switch_pinyin;
      ui_queue_put {| visible := true; buffer := []; candidates := [] |};
      update_tray_menu pinyin; update_tray_icon_image pinyin]
  /\ ~ In (ui_queue_put {| visible := false; buffer := []; candidates := [] |})
          (effects_of (on_press Key_shift_l st)).
Proof.
  cbv zeta. repeat split.
  intros Hin. cbn in Hin.
  destruct Hin as [H|[H|[H|[H|[]]]]]; discriminate.
Qed.

(** Scenario A: "ni" typed, Enter commits the first candidate. *)
Lemma space_enter_commits_witness :
  on_press Key_enter state_ni =
  (RetNone, initial_state,
   [print (msg_commit [20320%N]);
    ui_queue_put {| visible := false; buffer := []; candidates := [] |}]).
Proof.
  refine (proj1 (space_enter_commits state_ni Key_enter _ _) _).
  - simpl. auto.
  - reflexivity.
  - discriminate.
Defined.

(** Scenario E: "ni" typed, the key 3 commits the third candidate. *)
Lemma digit_key_selects_witness :
  exists output : str,
    nth_error (current_candidates state_ni) 2 = Some output /\
    on_press (key_of "3") state_ni =
    (RetNone, initial_state,
     [print (msg_select output);
      ui_queue_put {| visible := false; buffer := []; candidates := [] |}]).
Proof.
  refine (proj1 (digit_key_selects state_ni 51%N _) _).
  - reflexivity.
  - vm_compute. repeat split; lia.
Defined.

(** "ni" looked up with [top_k = 3]. *)
Lemma lookup_chunks_and_truncates_witness :
  simple_seg (str_of "ni") 3 None = (Ok [[20320%N]; [23612%N]; [21602%N]], [])
  /\ length (fst (get_top_candidates (str_of "ni") 3)) <= 3.
Proof.
  destruct (lookup_chunks_and_truncates (str_of "ni") 3 None)
    as (_ & _ & _ & _ & Hseg & _ & Hlen).
  - lia.
  - split; [| exact Hlen].
    apply (Hseg ltac:(discriminate) hanzi_ni). reflexivity.
Defined.

(** The toy library fails on "zza". *)
Lemma lookup_failure_gives_no_candidates_witness :
  get_top_candidates (str_of "zza") 5 =
  ([], [print (msg_lookup_error
                 {| is_Exception := true; exc_text := str_of "KeyError" |})]).
Proof.
  refine (proj1 (lookup_failure_gives_no_candidates (str_of "zza") 5
                   {| is_Exception := true; exc_text := str_of "KeyError" |} _ _)).
  - discriminate.
  - reflexivity.
Defined.

Lemma candidates_only_in_pinyin_witness :
  current_mode state_ni = pinyin
  /\ raw_input_buffer state_ni <> [] /\ input_buffer state_ni <> [].
Proof.
  apply (candidates_only_in_pinyin state_ni).
  - exists typed_ni. reflexivity.
  - discriminate.
Defined.

Lemma buffers_stay_equal_witness :
  input_buffer state_ni = raw_input_buffer state_ni
  /\ forall ev : Event,
       input_buffer (state_of (callback ev state_ni))
       = raw_input_buffer (state_of (callback ev state_ni)).
Proof.
  apply (buffers_stay_equal state_ni).
  exists typed_ni. reflexivity.
Defined.

(** Scenario D, first step: "ni", Backspace leaves "n" in mode Pinyin. *)
Lemma backspace_never_english_witness :
  let st' := state_of (on_press Key_backspace state_ni) in
  raw_input_buffer st' = removelast (raw_input_buffer state_ni)
  /\ input_buffer st' = raw_input_buffer st'
  /\ current_mode st' <> english
  /\ (raw_input_buffer st' <> [] -> current_mode st' = pinyin)
  /\ (raw_input_buffer st' = [] -> current_mode st' = unknown).
Proof.
  apply (backspace_never_english state_ni).
  - exists typed_ni. reflexivity.
  - reflexivity.
  - discriminate.
Defined.

(** "ni" typed, then "h" and Backspace: mode and buffer come back. *)
Lemma letter_then_backspace_witness :
  let st1 := state_of (on_press (key_of "h") state_ni) in
  let st2 := state_of (on_press Key_backspace st1) in
  ((current_mode st2 = current_mode state_ni
    /\ raw_input_buffer st2 = raw_input_buffer state_ni)
   <->
   (current_mode st1 = pinyin
    /\ (raw_input_buffer state_ni <> [] \/ current_mode state_ni = unknown)))
  /\ current_mode st1 = mode_of_buffer (raw_input_buffer state_ni ++ [104%N])
  /\ (mode_of_buffer (raw_input_buffer state_ni ++ [104%N]) = english ->
      on_press Key_backspace st1 = (RetNone, st1, [])
      /\ raw_input_buffer st2 = raw_input_buffer state_ni ++ [104%N]
      /\ input_buffer st2 = raw_input_buffer state_ni ++ [104%N]
      /\ current_mode st2 = english).
Proof.
  apply (letter_then_backspace state_ni 104%N).
  - exists typed_ni. reflexivity.
  - reflexivity.
Defined.

(** C4 as stated fails: from the initial state, typing "r" gives mode
    English, where Backspace is not handled; the buffer keeps the "r" and
    the mode stays English instead of going back to Unknown. *)
Lemma letter_then_backspace_counterexample :
  let c := 114%N in
  let st1 := state_of (on_press (KeyCode (Some c)) initial_state) in
  let st2 := state_of (on_press Key_backspace st1) in
  reachable initial_state
  /\ is_latin_letter c = true
  /\ raw_input_buffer initial_state = [] /\ current_mode initial_state = unknown
  /\ raw_input_buffer st2 = [c] /\ current_mode st2 = english.
Proof.
  cbv zeta. repeat split. exists []. reflexivity.
Qed.

(** ** The further properties on the concrete libraries *)

(** "n1" holds a digit. *)
Lemma classifier_rejects_non_letters_witness :
  is_pinyin_sequence_prefix (str_of "n1") = false
  /\ is_pinyin_sequence_prefix [] = false.
Proof.
  apply (classifier_rejects_non_letters (str_of "n1") 49%N).
  - simpl. auto.
  - reflexivity.
  - reflexivity.
Defined.

Lemma classifier_prefix_closed_witness :
  is_pinyin_sequence_prefix (firstn 2 (str_of "nihao")) = true.
Proof.
  apply (classifier_prefix_closed (str_of "nihao") 2).
  - reflexivity.
  - lia.
Defined.

Lemma classifier_ignores_appended_letters_witness :
  is_pinyin_sequence_prefix (str_of "d" ++ str_of "og") =
  is_pinyin_sequence_prefix (str_of "d").
Proof.
  apply (classifier_ignores_appended_letters (str_of "d") (str_of "og")).
  - discriminate.
  - reflexivity.
Defined.

(** "ni" has five candidates; with [top_k = -2] three of them come back. *)
Lemma simple_seg_negative_top_k_witness :
  simple_seg (str_of "ni") (-2) None =
  (Ok [[20320%N]; [23612%N]; [21602%N]], []).
Proof.
  apply (@simple_seg_negative_top_k toy_dag (str_of "ni") (-2) None hanzi_ni).
  - discriminate.
  - reflexivity.
  - reflexivity.
Defined.

(** "n", "i", then Escape, then "h": the "h" is never delivered. *)
Lemma listener_stops_at_escape_witness :
  listener (typed_ni ++ Press Key_esc :: [Press (key_of "h")]) initial_state
  = listener (typed_ni ++ [Press Key_esc]) initial_state
  /\ fst (listener (typed_ni ++ Press Key_esc :: [Press (key_of "h")]) initial_state)
     = fst (listener typed_ni initial_state)
  /\ forall evs : list Event,
       sets_stop_event (snd (listener evs initial_state)) = existsb is_escape evs.
Proof.
  apply (listener_stops_at_escape typed_ni [Press (key_of "h")] (Press Key_esc)
           initial_state).
  reflexivity.
Defined.

(** An exclamation mark does nothing. *)
Lemma unhandled_keys_do_nothing_witness :
  on_press (key_of "!") state_ni = (RetNone, state_ni, []).
Proof.
  apply (unhandled_keys_do_nothing (key_of "!") state_ni).
  right. right. exists 33%N. repeat split.
Defined.

Lemma shift_after_ctrl_release_witness :
  on_press Key_shift_l (state_of (on_release Key_ctrl_r (set_ctrl_pressed true state_ni))) =
  (RetNone,
   {| current_mode := pinyin; input_buffer := str_of "ni";
      raw_input_buffer := str_of "ni";
      current_candidates := current_candidates state_ni;
      ctrl_pressed := false; shift_pressed := true |},
   []).
Proof.
  apply (shift_after_ctrl_release Key_ctrl_r Key_shift_l (set_ctrl_pressed true state_ni)).
  - simpl. auto.
  - simpl. auto.
Defined.

Lemma ctrl_shift_twice_witness :
  state_of (on_press Key_shift_l
              (state_of (on_press Key_shift_l (set_ctrl_pressed true state_ni)))) =
  {| current_mode := pinyin;
     input_buffer := []; raw_input_buffer := []; current_candidates := [];
     ctrl_pressed := true; shift_pressed := true |}.
Proof.
  apply (ctrl_shift_twice Key_shift_l Key_shift_l (set_ctrl_pressed true state_ni)).
  - reflexivity.
  - simpl. auto.
  - simpl. auto.
Defined.

Lemma candidates_are_fresh_witness :
  (current_mode state_ni = pinyin -> raw_input_buffer state_ni <> [] ->
   current_candidates state_ni = fst (get_top_candidates (raw_input_buffer state_ni) 5))
  /\ length (current_candidates state_ni) <= 5.
Proof.
  apply (candidates_are_fresh state_ni).
  exists typed_ni. reflexivity.
Defined.

(** The third candidate of "ni" is committed by the key 3. *)
Lemma every_candidate_has_a_key_witness :
  2 < 5
  /\ on_press (key_of "3") state_ni =
     (RetNone, initial_state,
      [print (msg_select [21602%N]);
       ui_queue_put {| visible := false; buffer := []; candidates := [] |}]).
Proof.
  apply (every_candidate_has_a_key state_ni 2).
  - exists typed_ni. reflexivity.
  - vm_compute. lia.
Defined.

Lemma buffer_holds_letters_witness :
  forallb isalpha (raw_input_buffer state_ni) = true
  /\ forallb isalpha (input_buffer state_ni) = true.
Proof.
  apply (buffer_holds_letters state_ni).
  exists typed_ni. reflexivity.
Defined.

Lemma mode_matches_buffer_witness :
  (raw_input_buffer state_ni <> [] ->
   current_mode state_ni = mode_of_buffer (raw_input_buffer state_ni)
   /\ current_mode state_ni <> unknown)
  /\ (current_mode state_ni = unknown ->
      raw_input_buffer state_ni = [] /\ input_buffer state_ni = []
      /\ current_candidates state_ni = []).
Proof.
  apply (mode_matches_buffer state_ni).
  exists typed_ni. reflexivity.
Defined.

(** "ni" is in the buffer; "hao" is typed. *)
Lemma typing_appends_witness :
  let st' := fst (listener (typing (str_of "hao")) state_ni) in
  raw_input_buffer st' = raw_input_buffer state_ni ++ str_of "hao"
  /\ input_buffer st' = raw_input_buffer state_ni ++ str_of "hao"
  /\ current_mode st' = mode_of_buffer (raw_input_buffer state_ni ++ str_of "hao")
  /\ current_candidates st' =
     (if mode_eqb (current_mode st') pinyin
      then fst (get_top_candidates (raw_input_buffer state_ni ++ str_of "hao") 5)
      else [])
  /\ ctrl_pressed st' = ctrl_pressed state_ni
  /\ shift_pressed st' = shift_pressed state_ni.
Proof.
  apply (typing_appends (str_of "hao") state_ni).
  - discriminate.
  - reflexivity.
Defined.

(** "wo" starts with a letter outside the sets: Enter commits "wo". *)
Lemma typed_word_is_committed_witness :
  exists output : str,
    on_press Key_enter (fst (listener (typing (str_of "wo")) initial_state)) =
    (RetNone, initial_state,
     [print (msg_commit output);
      ui_queue_put {| visible := false; buffer := []; candidates := [] |}])
    /\ (in_pinyin_sets (ascii_lower (hd 0%N (str_of "wo"))) ->
        output = match fst (get_top_candidates (str_of "wo") 5) with
                 | first :: _ => first
                 | [] => str_of "wo"
                 end)
    /\ (~ in_pinyin_sets (ascii_lower (hd 0%N (str_of "wo"))) -> output = str_of "wo").
Proof.
  apply (typed_word_is_committed (str_of "wo") Key_enter initial_state).
  - reflexivity.
  - discriminate.
  - reflexivity.
  - simpl. auto.
Defined.

(** "ni" with one Backspace is "n", still Pinyin. *)
Lemma backspaces_erase_witness :
  let st' := fst (listener (repeat (Press Key_backspace) 1) state_ni) in
  raw_input_buffer st'
  = firstn (length (raw_input_buffer state_ni) - 1) (raw_input_buffer state_ni)
  /\ input_buffer st' = raw_input_buffer st'
  /\ current_mode st'
     = (if 1 <? length (raw_input_buffer state_ni) then pinyin else unknown).
Proof.
  apply (backspaces_erase 1 state_ni).
  - exists typed_ni. reflexivity.
  - reflexivity.
  - discriminate.
Defined.

Lemma more_letters_keep_mode_witness :
  current_mode (state_of (on_press (key_of "h") state_ni)) = current_mode state_ni
  /\ last_tray_menu None (effects_of (on_press (key_of "h") state_ni)) = None
  /\ last_tray_icon None (effects_of (on_press (key_of "h") state_ni)) = None.
Proof.
  apply (more_letters_keep_mode 104%N state_ni).
  - exists typed_ni. reflexivity.
  - discriminate.
  - reflexivity.
Defined.

End Runs.
